(** * AIExamSystem: the question generator (python-backend/question_generator.py)

    A shallow embedding of the script: Python strings are lists of Unicode
    code points, [re.search] is a backtracking matcher run on the script's
    pattern, the accumulator loop is a state transformer driven by an
    arbitrary model client, and everything the script does to the outside
    world (model calls, console lines, the output file) is recorded in a
    trace of events. Printing and the file-system calls of the last lines
    ([os.makedirs], [open], [json.dump]) are taken to succeed. *)

From Stdlib Require Import NArith String Ascii List Lia DecimalString.
From stdpp Require Import gmap list.

Set Warnings "-register-all".
Local Open Scope N_scope.

(** ** Python strings *)

(** A [str] is a sequence of code points. *)
Abbreviation char := N (only parsing).
Abbreviation text := (list N) (only parsing).

(** Literals of the source, written as Rocq strings. *)
Fixpoint str (s : string) : text :=
  match s with
  | EmptyString => []
  | String a s' => N_of_ascii a :: str s'
  end.

(** The line feed character, [\n]. *)
Definition nl : char := 10.

(** [Py_UNICODE_ISSPACE]: the characters that [\s] matches in a [str]
    pattern and that [str.strip()] removes. *)
Definition isspace (c : char) : bool :=
  ((9 <=? c) && (c <=? 13)) || ((28 <=? c) && (c <=? 32))
  || (c =? 133) || (c =? 160) || (c =? 5760)
  || ((8192 <=? c) && (c <=? 8202))
  || (c =? 8232) || (c =? 8233) || (c =? 8239) || (c =? 8287) || (c =? 12288).

Fixpoint lstrip (s : text) : text :=
  match s with
  | c :: s' => if isspace c then lstrip s' else s
  | [] => []
  end.

Definition rstrip (s : text) : text := rev (lstrip (rev s)).

(** [s.strip()] *)
Definition strip (s : text) : text := rstrip (lstrip s).

(** [str(n)] for a non-negative integer. *)
Definition str_of_nat (n : nat) : text :=
  str (NilZero.string_of_uint (Nat.to_uint n)).

(** ** The [re] engine, for the constructs the script's pattern uses *)

Module Re.

Inductive node :=
| Lit (l : text)          (* literal characters *)
| Spaces                  (* [\s*], greedy *)
| GroupAnyLazy            (* [(.*?)] under [re.DOTALL], capturing *)
| GroupOneOf (cs : text). (* [([...])], capturing *)

Definition pattern := list node.

(** What [match.groups()] returns. *)
Definition groups := list (list N).

(** Consume the literal [l] at the head of [s]. *)
Fixpoint eat (l s : text) : option text :=
  match l with
  | [] => Some s
  | c :: l' =>
      match s with
      | d :: s' => if c =? d then eat l' s' else None
      | [] => None
      end
  end.

(** Greedy [\s*] followed by the continuation [k]: the longest run of
    whitespace is tried first, then shorter ones. *)
Fixpoint greedy_spaces (k : text -> option groups) (s : text) : option groups :=
  match s with
  | c :: s' =>
      if isspace c then
        match greedy_spaces k s' with
        | Some r => Some r
        | None => k s
        end
      else k s
  | [] => k []
  end.

(** Lazy [(.*?)] followed by [k]: the shortest capture is tried first;
    [acc] is the capture so far, in reverse. *)
Fixpoint lazy_any (k : text -> option groups) (acc s : text) : option groups :=
  match k s with
  | Some r => Some (rev acc :: r)
  | None =>
      match s with
      | c :: s' => lazy_any k (c :: acc) s'
      | [] => None
      end
  end.

(** Match [p] at the head of [s], by backtracking. *)
Fixpoint match_here (p : pattern) : text -> option groups :=
  match p with
  | [] => fun _ => Some []
  | Lit l :: p' =>
      fun s => match eat l s with
               | Some s' => match_here p' s'
               | None => None
               end
  | Spaces :: p' => greedy_spaces (match_here p')
  | GroupAnyLazy :: p' => lazy_any (match_here p') []
  | GroupOneOf cs :: p' =>
      fun s => match s with
               | c :: s' =>
                   if existsb (N.eqb c) cs then
                     match match_here p' s' with
                     | Some r => Some ([c] :: r)
                     | None => None
                     end
                   else None
               | [] => None
               end
  end.

(** [re.search]: the match at the leftmost position that has one. *)
Fixpoint search (p : pattern) (s : text) : option groups :=
  match match_here p s with
  | Some r => Some r
  | None =>
      match s with
      | _ :: s' => search p s'
      | [] => None
      end
  end.

(** The strings a pattern matches in full ([re.fullmatch]). *)
Fixpoint lang (p : pattern) (s : text) : Prop :=
  match p with
  | [] => s = []
  | Lit l :: p' => exists s', s = l ++ s' /\ lang p' s'
  | Spaces :: p' =>
      exists w s', s = w ++ s' /\ forallb isspace w = true /\ lang p' s'
  | GroupAnyLazy :: p' => exists g s', s = g ++ s' /\ lang p' s'
  | GroupOneOf cs :: p' =>
      exists c s', s = c :: s' /\ List.In c cs /\ lang p' s'
  end.

End Re.

(** [t] occurs somewhere in [s]. *)
Definition occurs (t s : text) : Prop :=
  exists pre post, s = pre ++ t ++ post.

(** ** Question records *)

Record option_map4 := {
  opt_A : text;
  opt_B : text;
  opt_C : text;
  opt_D : text
}.

(** The dict [parse_mcq] builds, keys in insertion order. *)
Record mcq := {
  mcq_subject : text;
  mcq_level : text;
  mcq_question : text;
  mcq_options : option_map4;
  mcq_correct : text
}.

(** ** JSON, as [json.dump(..., indent=4)] writes it *)

Module Json.

Inductive value :=
| JStr (s : text)
| JArr (items : list value)
| JObj (members : list (text * value)).

Definition hexdigit (n : N) : char :=
  if n <? 10 then 48 + n else 87 + n.

(** ['\\u{0:04x}'.format(n)] *)
Definition u_escape (n : N) : text :=
  str "\u" ++ [hexdigit (n / 4096 mod 16); hexdigit (n / 256 mod 16);
               hexdigit (n / 16 mod 16); hexdigit (n mod 16)].

(** One character under [ensure_ascii=True]. *)
Definition escape_char (c : char) : text :=
  if c =? 34 then str "\" ++ [34]
  else if c =? 92 then str "\\"
  else if c =? 10 then str "\n"
  else if c =? 13 then str "\r"
  else if c =? 9 then str "\t"
  else if c =? 8 then str "\b"
  else if c =? 12 then str "\f"
  else if (32 <=? c) && (c <=? 126) then [c]
  else if c <? 65536 then u_escape c
  else
    let n := c - 65536 in
    u_escape (N.lor 55296 (N.land (N.shiftr n 10) 1023))
    ++ u_escape (N.lor 56320 (N.land n 1023)).

Definition encode_str (s : text) : text :=
  [34] ++ concat (map escape_char s) ++ [34].

(** ['\n' + ' ' * (4 * level)] *)
Definition newline_indent (lvl : nat) : text :=
  nl :: repeat 32 (4 * lvl)%nat.

Fixpoint join (sep : text) (parts : list text) : text :=
  match parts with
  | [] => []
  | [x] => x
  | x :: rest => x ++ sep ++ join sep rest
  end.

Fixpoint encode (lvl : nat) (v : value) : text :=
  match v with
  | JStr s => encode_str s
  | JArr [] => str "[]"
  | JArr items =>
      str "[" ++ newline_indent (S lvl)
      ++ join (str "," ++ newline_indent (S lvl)) (map (encode (S lvl)) items)
      ++ newline_indent lvl ++ str "]"
  | JObj [] => str "{}"
  | JObj members =>
      str "{" ++ newline_indent (S lvl)
      ++ join (str "," ++ newline_indent (S lvl))
           (map (fun kv => encode_str (fst kv) ++ str ": " ++ encode (S lvl) (snd kv))
              members)
      ++ newline_indent lvl ++ str "}"
  end.

Definition of_mcq (r : mcq) : value :=
  JObj [ (str "subject", JStr (mcq_subject r));
         (str "level", JStr (mcq_level r));
         (str "question", JStr (mcq_question r));
         (str "options",
           JObj [ (str "A", JStr (opt_A (mcq_options r)));
                  (str "B", JStr (opt_B (mcq_options r)));
                  (str "C", JStr (opt_C (mcq_options r)));
                  (str "D", JStr (opt_D (mcq_options r))) ]);
         (str "correct", JStr (mcq_correct r)) ].

(** The text [json.dump(dataset, f, indent=4)] writes. *)
Definition dump (dataset : list mcq) : text :=
  encode 0 (JArr (map of_mcq dataset)).

End Json.

(** ** The outside world *)

(** A raised exception: whether it is an instance of [Exception] (the
    class the loop's handler names; [KeyboardInterrupt], [SystemExit] and
    [GeneratorExit] are not) and its [str()]. *)
Record exn := {
  is_Exception : bool;
  exn_str : text
}.

(** One call of the model client, [model.generate_content(prompt).text]:
    it returns text or raises. *)
Inductive reply :=
| Returned (t : text)
| Raised (e : exn).

(** The model client: the reply to the call numbered [n] (from 0), given
    the prompt it is sent. *)
Definition model_client := nat -> text -> reply.

(** What the script does to its environment, in order. *)
Inductive event :=
| Configure (api_key : text)          (* genai.configure(api_key=...) *)
| LoadModel (name : text)             (* genai.GenerativeModel(...) *)
| Print (line : text)                 (* print(...) *)
| GenerateContent (prompt : text)     (* model.generate_content(prompt) *)
| Makedirs (path : text)              (* os.makedirs(path, exist_ok=True) *)
| WriteFile (path content : text).    (* open(path, "w") and json.dump *)

(** The number of model calls in a trace. *)
Fixpoint model_calls (tr : list event) : nat :=
  match tr with
  | [] => 0
  | GenerateContent _ :: tr' => S (model_calls tr')
  | _ :: tr' => model_calls tr'
  end.

(** The content of the file at [path] after the trace, if it was written. *)
Fixpoint file_content (path : text) (tr : list event) : option text :=
  match tr with
  | [] => None
  | e :: tr' =>
      match file_content path tr', e with
      | Some c, _ => Some c
      | None, WriteFile p c => if decide (p = path) then Some c else None
      | None, _ => None
      end
  end.

(** ** The script *)

Definition build_prompt (subject level : text) (count : nat) : text :=
  [nl] ++ str "Generate a " ++ level
  ++ str " level multiple choice quiz question in " ++ subject ++ str "." ++ [nl]
  ++ str "Make it unique and totally different. Do not repeat previous questions." ++ [nl]
  ++ str "Format exactly like this:" ++ [nl]
  ++ str "Q: <question text>" ++ [nl]
  ++ str "A. <option 1>" ++ [nl]
  ++ str "B. <option 2>" ++ [nl]
  ++ str "C. <option 3>" ++ [nl]
  ++ str "D. <option 4>" ++ [nl]
  ++ str "Answer: <A/B/C/D>" ++ [nl]
  ++ [nl]
  ++ str "This is question number " ++ str_of_nat (count + 1) ++ str "." ++ [nl].

(** [Q:\s*(.*?)\nA\.\s*(.*?)\nB\.\s*(.*?)\nC\.\s*(.*?)\nD\.\s*(.*?)\nAnswer:\s*([ABCD])] *)
Definition mcq_pattern : Re.pattern :=
  [ Re.Lit (str "Q:"); Re.Spaces; Re.GroupAnyLazy;
    Re.Lit (nl :: str "A."); Re.Spaces; Re.GroupAnyLazy;
    Re.Lit (nl :: str "B."); Re.Spaces; Re.GroupAnyLazy;
    Re.Lit (nl :: str "C."); Re.Spaces; Re.GroupAnyLazy;
    Re.Lit (nl :: str "D."); Re.Spaces; Re.GroupAnyLazy;
    Re.Lit (nl :: str "Answer:"); Re.Spaces; Re.GroupOneOf (str "ABCD") ].

Definition output_file : text := str "data/questions_dataset.json".

(** The loop's variables, and the trace so far. *)
Record state := {
  dataset : list mcq;
  seen_questions : gset (list N);
  tries : nat;
  trace : list event
}.

(** How one execution of the loop body ends. *)
Inductive flow :=
| Continue (st : state)
| Raise (e : exn) (st : state).

(** How the loop ends. *)
Inductive ended :=
| Finished (st : state)
| Uncaught (e : exn) (st : state).

Definition emit (es : list event) (st : state) : state :=
  {| dataset := dataset st; seen_questions := seen_questions st;
     tries := tries st; trace := trace st ++ es |}.

Section Generator.

(** The script's globals [subject] and [level], and the model behind
    [model.generate_content]. *)
Variables subject level : text.
Variable client : model_client.

Definition parse_mcq (t : text) : option mcq :=
  match Re.search mcq_pattern t with
  | Some [q; a; b; c; d; correct] =>
      Some {| mcq_subject := subject;
              mcq_level := level;
              mcq_question := strip q;
              mcq_options := {| opt_A := strip a; opt_B := strip b;
                                opt_C := strip c; opt_D := strip d |};
              mcq_correct := strip correct |}
  | _ => None
  end.

(** [dataset.append(parsed); seen_questions.add(question_text)] *)
Definition accept (parsed : mcq) (st : state) : state :=
  {| dataset := dataset st ++ [parsed];
     seen_questions := seen_questions st ∪ {[ mcq_question parsed ]};
     tries := tries st; trace := trace st |}.

(** [tries += 1] *)
Definition count_try (st : state) : state :=
  {| dataset := dataset st; seen_questions := seen_questions st;
     tries := S (tries st); trace := trace st |}.

Definition msg_accepted (n : nat) (question_text : text) : text :=
  [9989] ++ str " (" ++ str_of_nat n ++ str "/10): "
  ++ take 50 question_text ++ str "...".

Definition msg_duplicate : text :=
  [9888; 65039] ++ str " Duplicate question skipped.".

Definition msg_parse_failed : text :=
  [10060] ++ str " Failed to parse response.".

Definition msg_error (e : exn) : text :=
  [10060] ++ str " Error: " ++ exn_str e.

(** The condition of the [while]. *)
Definition loop_cond (st : state) : bool :=
  (length (dataset st) <? 10)%nat && (tries st <? 30)%nat.

(** One execution of the loop body. The call is the one numbered
    [tries st]: every earlier iteration made one call and counted one
    try. *)
Definition loop_body (st : state) : flow :=
  let prompt := build_prompt subject level (length (dataset st)) in
  let st := emit [GenerateContent prompt] st in
  match client (tries st) prompt with
  | Returned t =>
      match parse_mcq t with
      | Some parsed =>
          let question_text := mcq_question parsed in
          if decide (question_text ∉ seen_questions st) then
            let st := accept parsed st in
            Continue (count_try
              (emit [Print (msg_accepted (length (dataset st)) question_text)] st))
          else
            Continue (count_try (emit [Print msg_duplicate] st))
      | None =>
          Continue (count_try (emit [Print msg_parse_failed] st))
      end
  | Raised e =>
      if is_Exception e then
        Continue (count_try (emit [Print (msg_error e)] st))
      else Raise e st
  end.

(** The [while] loop; [None] when [fuel] iterations were not enough. *)
Fixpoint while_loop (fuel : nat) (st : state) : option ended :=
  if loop_cond st then
    match fuel with
    | O => None
    | S fuel' =>
        match loop_body st with
        | Continue st' => while_loop fuel' st'
        | Raise e st' => Some (Uncaught e st')
        end
    end
  else Some (Finished st).

(** The state after [k] executions of the body started in [st], when the
    loop runs that long. *)
Fixpoint after (k : nat) (st : state) : option state :=
  match k with
  | O => Some st
  | S k' =>
      if loop_cond st then
        match loop_body st with
        | Continue st' => after k' st'
        | Raise _ _ => None
        end
      else None
  end.

End Generator.

(** A finished run of the script: its trace, and the exception that ended
    it, if one did. *)
Record run := {
  run_trace : list event;
  run_error : option exn
}.

Definition missing_key_error : exn :=
  {| is_Exception := true;
     exn_str := [10060] ++ str " Error: GEMINI_API_KEY environment variable not set." |}.

Definition msg_banner (subject level : text) : text :=
  [128218] ++ str " Generating 10 questions for subject: " ++ subject
  ++ str ", level: " ++ level.

Definition msg_saved (n : nat) : text :=
  [9989] ++ str " Saved " ++ str_of_nat n ++ str " questions to '"
  ++ output_file ++ str "'".

(** [sys.argv[i] if len(sys.argv) > i else default] *)
Definition argv_or (argv : list (list N)) (i : nat) (default : text) : text :=
  if (i <? length argv)%nat then nth i argv [] else default.

Definition initial_state (api_key subject level : text) : state :=
  {| dataset := []; seen_questions := ∅; tries := 0;
     trace := [ Configure api_key; LoadModel (str "gemini-2.0-flash");
                Print (msg_banner subject level) ] |}.

(** The whole script, top to bottom. [getenv] is
    [os.getenv("GEMINI_API_KEY")]; [None] is returned only if the loop
    needs more than [fuel] iterations. *)
Definition script (fuel : nat) (getenv : option text) (argv : list (list N))
    (client : model_client) : option run :=
  let API_KEY := getenv in
  match API_KEY with
  | None | Some [] =>
      (* [if not API_KEY: raise ValueError(...)] *)
      Some {| run_trace := []; run_error := Some missing_key_error |}
  | Some api_key =>
      let subject := argv_or argv 1 (str "General Knowledge") in
      let level := argv_or argv 2 (str "Beginner") in
      match while_loop subject level client fuel
              (initial_state api_key subject level) with
      | None => None
      | Some (Uncaught e st) =>
          Some {| run_trace := trace st; run_error := Some e |}
      | Some (Finished st) =>
          Some {| run_trace :=
                    trace st ++ [ Makedirs (str "data");
                                  WriteFile output_file (Json.dump (dataset st));
                                  Print (msg_saved (length (dataset st))) ];
                  run_error := None |}
      end
  end.

(** ** Notions used in the statements *)

(** [s] has no line feed: it lies on one line. *)
Definition one_line (s : text) : Prop := ~ List.In nl s.

(** [t] occurs in [s], decided by trying every position. *)
Fixpoint occursb (t s : text) : bool :=
  match Re.eat t s with
  | Some _ => true
  | None =>
      match s with
      | _ :: s' => occursb t s'
      | [] => false
      end
  end.

(** The number of capturing groups of a pattern. *)
Fixpoint group_count (p : Re.pattern) : nat :=
  match p with
  | [] => 0
  | (Re.GroupAnyLazy | Re.GroupOneOf _) :: p' => S (group_count p')
  | _ :: p' => group_count p'
  end.

(** A response in the layout the prompt asks for: the six labelled lines,
    then [tail] after the [Answer:] label. *)
Definition mcq_text (q a b c d tail : text) : text :=
  str "Q:" ++ q ++ nl :: str "A." ++ a ++ nl :: str "B." ++ b
  ++ nl :: str "C." ++ c ++ nl :: str "D." ++ d ++ nl :: str "Answer:" ++ tail.

(** A field of such a response: it lies on one line and, when it is blank,
    the label that ends it does not come again after [Answer:]. *)
Definition field_ok (f next tail : text) : Prop :=
  one_line f /\ (lstrip f = [] -> ~ occurs (nl :: next) tail).

(** Some required part of the layout is absent from [t]: the [Q:] label,
    the label of an option at the start of a line, or an [Answer:] label at
    the start of a line followed, after optional whitespace, by one of the
    four letters. *)
Definition missing_label (t : text) : Prop :=
  ~ occurs (str "Q:") t
  \/ ~ occurs (nl :: str "A.") t
  \/ ~ occurs (nl :: str "B.") t
  \/ ~ occurs (nl :: str "C.") t
  \/ ~ occurs (nl :: str "D.") t
  \/ ~ (exists w l, forallb isspace w = true /\ List.In l (str "ABCD")
                    /\ occurs (nl :: str "Answer:" ++ w ++ [l]) t).

(** Lines joined by line feeds. *)
Fixpoint unlines (ls : list string) : text :=
  match ls with
  | [] => []
  | [s] => str s
  | s :: ls' => str s ++ nl :: unlines ls'
  end.

(** A response with commentary around the question block. *)
Definition chatty_response : text :=
  unlines [ "Sure! Here is your question:"; "Q: What is 2+2?"; "A. 3"; "B. 4";
            "C. 5"; "D. 6"; "Answer: B"; "Hope this helps!" ]%string.

(** A response without the line of option C. *)
Definition three_option_response : text :=
  unlines [ "Q: What is 2+2?"; "A. 3"; "B. 4"; "D. 6"; "Answer: B" ]%string.

(** The state the loop ended in. *)
Definition final_state (e : ended) : state :=
  match e with
  | Finished st | Uncaught _ st => st
  end.

(** What every iteration of the loop preserves: the bounds on the dataset
    and on the tries, one model call per try, distinct question texts, and
    [seen_questions] holding exactly the questions of the dataset. *)
Definition loop_inv (st : state) : Prop :=
  (length (dataset st) <= 10)%nat
  /\ (tries st <= 30)%nat
  /\ model_calls (trace st) = tries st
  /\ NoDup (map mcq_question (dataset st))
  /\ (forall q, q ∈ seen_questions st <-> q ∈ map mcq_question (dataset st)).

(** The calls with an even number among the first [k]. *)
Definition even_calls (k : nat) : list nat := List.filter Nat.even (seq 0 k).

(** The client alternates: every even call returns a well-formed response,
    parsed as [r i], whose question no other even call repeats; every odd
    call returns a well-formed response with the question of the first. *)
Definition alternates (subject level : text) (client : model_client)
    (r : nat -> mcq) : Prop :=
  (forall i p, Nat.even i = true ->
     exists t, client i p = Returned t /\ parse_mcq subject level t = Some (r i))
  /\ (forall i p, Nat.even i = false ->
        exists t d, client i p = Returned t
                    /\ parse_mcq subject level t = Some d
                    /\ mcq_question d = mcq_question (r 0%nat))
  /\ (forall i j, Nat.even i = true -> Nat.even j = true ->
        mcq_question (r i) = mcq_question (r j) -> i = j).

(** Sample clients. The question of [fresh_response i] is the letter x
    written [i + 1] times. *)
Definition fresh_question (i : nat) : text := repeat 120 (S i).

Definition fresh_response (i : nat) : text :=
  str "Q: " ++ fresh_question i
  ++ nl :: unlines [ "A. 1"; "B. 2"; "C. 3"; "D. 4"; "Answer: A" ]%string.

Definition fresh_record (subject level : text) (i : nat) : mcq :=
  {| mcq_subject := subject;
     mcq_level := level;
     mcq_question := fresh_question i;
     mcq_options := {| opt_A := str "1"; opt_B := str "2";
                       opt_C := str "3"; opt_D := str "4" |};
     mcq_correct := str "A" |}.

Definition duplicate_response : text :=
  unlines [ "Q: x"; "A. 4"; "B. 3"; "C. 2"; "D. 1"; "Answer: D" ]%string.

Definition fresh_client : model_client :=
  fun n _ => Returned (fresh_response n).

Definition alternating_client : model_client :=
  fun n _ => if Nat.even n then Returned (fresh_response n)
             else Returned duplicate_response.

Definition failing_client : model_client :=
  fun _ _ => Raised {| is_Exception := true;
                       exn_str := str "503 Service Unavailable" |}.

(** ** Notions used for the further properties *)

(** The strings a pattern matches in full, with what its groups capture. *)
Fixpoint lang_groups (p : Re.pattern) (s : text) (r : Re.groups) : Prop :=
  match p with
  | [] => s = [] /\ r = []
  | Re.Lit l :: p' => exists s', s = l ++ s' /\ lang_groups p' s' r
  | Re.Spaces :: p' =>
      exists w s', s = w ++ s' /\ forallb isspace w = true /\ lang_groups p' s' r
  | Re.GroupAnyLazy :: p' =>
      exists g s' r', s = g ++ s' /\ r = g :: r' /\ lang_groups p' s' r'
  | Re.GroupOneOf cs :: p' =>
      exists c s' r', s = c :: s' /\ List.In c cs /\ r = [c] :: r' /\ lang_groups p' s' r'
  end.

(** [s] has no whitespace at either end. *)
Definition trimmed (s : text) : Prop := lstrip s = s /\ rstrip s = s.

(** A field that may span several lines: it is not blank, and the label
    that ends it does not occur inside it. *)
Definition field_multi (f next : text) : Prop :=
  lstrip f <> [] /\ ~ occurs (nl :: next) f.

(** The number of times the trace writes a file. *)
Fixpoint file_writes (tr : list event) : nat :=
  match tr with
  | [] => 0
  | WriteFile _ _ :: tr' => S (file_writes tr')
  | _ :: tr' => file_writes tr'
  end.

(** A character that is a line feed or printable ASCII. *)
Definition plain_ascii (c : N) : bool :=
  (c =? 10) || ((32 <=? c) && (c <=? 126)).

(** The record parsed from [chatty_response]. *)
Definition chatty_record : mcq :=
  {| mcq_subject := str "Math";
     mcq_level := str "Beginner";
     mcq_question := str "What is 2+2?";
     mcq_options := {| opt_A := str "3"; opt_B := str "4";
                       opt_C := str "5"; opt_D := str "6" |};
     mcq_correct := str "B" |}.

(** A client whose replies never parse. *)
Definition garbage_client : model_client :=
  fun _ _ => Returned (str "I cannot help with that.").

(** The number of line feeds in a text. *)
Fixpoint line_feeds (s : text) : nat :=
  match s with
  | [] => 0
  | c :: s' => ((if (c =? nl)%N then 1 else 0) + line_feeds s')%nat
  end.

(** The prompts sent to the model, in order. *)
Fixpoint prompts (tr : list event) : list (list N) :=
  match tr with
  | [] => []
  | GenerateContent p :: tr' => p :: prompts tr'
  | _ :: tr' => prompts tr'
  end.

(** The prompts the script may send: the template, for one of the question
    numbers 1 to 10. *)
Definition template_prompt (subject level p : text) : Prop :=
  exists n, (n < 10)%nat /\ p = build_prompt subject level n.

(** * Strings *)

Lemma isspace_nl : isspace nl = true.
Proof. reflexivity. Qed.

Lemma lstrip_split (s : text) :
  exists w, s = w ++ lstrip s /\ forallb isspace w = true.
Proof.
  induction s as [|c s IH]; simpl.
  - exists []; split; reflexivity.
  - destruct (isspace c) eqn:Hc.
    + destruct IH as (w & Hs & Hw).
      exists (c :: w); simpl. rewrite Hc, Hw. split; [congruence | reflexivity].
    + exists []; split; reflexivity.
Qed.

Lemma lstrip_head (s : text) (c : N) (s' : text) :
  lstrip s = c :: s' -> isspace c = false.
Proof.
  induction s as [|d s IH]; simpl; [discriminate|].
  destruct (isspace d) eqn:Hd; [exact IH|].
  intros [= <- _]. exact Hd.
Qed.

Lemma lstrip_idem (s : text) : lstrip (lstrip s) = lstrip s.
Proof.
  destruct (lstrip s) as [|c s'] eqn:E; [reflexivity|].
  simpl. now rewrite (lstrip_head _ _ _ E).
Qed.

Lemma strip_lstrip (s : text) : strip (lstrip s) = strip s.
Proof. unfold strip. now rewrite lstrip_idem. Qed.

Lemma strip_letter (c : N) : isspace c = false -> strip [c] = [c].
Proof. intros Hc. unfold strip, rstrip. simpl. rewrite Hc. simpl. now rewrite Hc. Qed.

Lemma lstrip_one_line (s : text) : one_line s -> one_line (lstrip s).
Proof.
  unfold one_line. induction s as [|c s IH]; simpl; [tauto|].
  destruct (isspace c); simpl; tauto.
Qed.

(** * The matcher *)

Lemma eat_app (l s : text) : Re.eat l (l ++ s) = Some s.
Proof. induction l as [|c l IH]; simpl; [reflexivity|]. now rewrite N.eqb_refl. Qed.

Lemma eat_Some (l s s' : text) : Re.eat l s = Some s' -> s = l ++ s'.
Proof.
  revert s. induction l as [|c l IH]; intros s; simpl.
  - now intros [= ->].
  - destruct s as [|d s]; [discriminate|].
    destruct (c =? d) eqn:E; [|discriminate].
    apply N.eqb_eq in E. subst d. intros H. now rewrite (IH _ H).
Qed.

Lemma eat_head (c d : N) (l s : text) : c <> d -> Re.eat (c :: l) (d :: s) = None.
Proof. intros H. simpl. apply N.eqb_neq in H. now rewrite H. Qed.

Lemma occurs_occursb (t s : text) : occurs t s <-> occursb t s = true.
Proof.
  split.
  - intros (pre & post & ->). induction pre as [|c pre IH]; simpl.
    + destruct t; simpl; [now destruct post|].
      rewrite N.eqb_refl, eat_app. reflexivity.
    + destruct (Re.eat t (c :: pre ++ t ++ post)); [reflexivity | exact IH].
  - induction s as [|c s IH]; simpl.
    + destruct (Re.eat t []) eqn:E; [|discriminate].
      intros _. apply eat_Some in E. exists [], l. exact E.
    + destruct (Re.eat t (c :: s)) eqn:E.
      * intros _. apply eat_Some in E. exists [], l. exact E.
      * intros H. destruct (IH H) as (pre & post & ->).
        exists (c :: pre), post. reflexivity.
Qed.

Lemma not_occurs (t s : text) : occursb t s = false -> ~ occurs t s.
Proof. intros H Ho. apply occurs_occursb in Ho. congruence. Qed.

Lemma occurs_app_r (t x y : text) : occurs t y -> occurs t (x ++ y).
Proof.
  intros (pre & post & ->). exists (x ++ pre), post. now rewrite <- app_assoc.
Qed.

Lemma occurs_app_l (t x y : text) : occurs t x -> occurs t (x ++ y).
Proof.
  intros (pre & post & ->). exists pre, (post ++ y). now rewrite <- !app_assoc.
Qed.

Lemma occurs_here (t s : text) : occurs t (t ++ s).
Proof. exists [], s. reflexivity. Qed.

Lemma occurs_cons_inv (t : text) (c : N) (s : text) :
  occurs t (c :: s) -> Re.eat t (c :: s) <> None \/ occurs t s.
Proof.
  intros (pre & post & H). destruct pre as [|d pre]; simpl in H.
  - left. rewrite H, eat_app. discriminate.
  - right. injection H as _ ->. exists pre, post. reflexivity.
Qed.

(** A label that starts a line cannot begin inside a single line. *)
Lemma occurs_past_line (lab x y : text) :
  one_line x -> occurs (nl :: lab) (x ++ y) -> occurs (nl :: lab) y.
Proof.
  unfold one_line. induction x as [|c x IH]; simpl; intros Hx Ho; [exact Ho|].
  apply occurs_cons_inv in Ho. destruct Ho as [He | Ho].
  - exfalso. apply He. apply eat_head. intros E. apply Hx. left. congruence.
  - apply IH; tauto.
Qed.

Section Continuation.

Variable k : text -> option Re.groups.

Lemma greedy_spaces_sound (s : text) (r : Re.groups) :
  Re.greedy_spaces k s = Some r ->
  exists w s', s = w ++ s' /\ forallb isspace w = true /\ k s' = Some r.
Proof.
  induction s as [|c s IH]; simpl.
  - intros H. exists [], []. auto.
  - destruct (isspace c) eqn:Hc.
    + destruct (Re.greedy_spaces k s) as [r'|] eqn:E.
      * intros [= <-]. destruct (IH eq_refl) as (w & s' & -> & Hw & Hk).
        exists (c :: w), s'. simpl. rewrite Hc, Hw. auto.
      * intros H. exists [], (c :: s). auto.
    + intros H. exists [], (c :: s). auto.
Qed.

Lemma greedy_spaces_stop (s : text) :
  lstrip s = s -> Re.greedy_spaces k s = k s.
Proof.
  destruct s as [|c s]; [reflexivity|].
  intros H. simpl. now rewrite (lstrip_head _ _ _ H).
Qed.

(** Whitespace before a point where the rest matches is absorbed. *)
Lemma greedy_spaces_run (w s : text) (r : Re.groups) :
  forallb isspace w = true ->
  Re.greedy_spaces k s = Some r ->
  Re.greedy_spaces k (w ++ s) = Some r.
Proof.
  induction w as [|c w IH]; simpl; [auto|].
  destruct (isspace c); [|discriminate].
  intros Hw Hs. now rewrite (IH Hw Hs).
Qed.

Lemma greedy_spaces_complete (w s : text) :
  forallb isspace w = true ->
  is_Some (k s) -> is_Some (Re.greedy_spaces k (w ++ s)).
Proof.
  intros Hw Hk.
  assert (Hs : is_Some (Re.greedy_spaces k s)).
  { destruct s as [|c s]; simpl; [exact Hk|].
    destruct (isspace c); [|exact Hk].
    destruct (Re.greedy_spaces k s); [eauto | exact Hk]. }
  destruct Hs as [r Hr]. exists r. now apply greedy_spaces_run.
Qed.

Lemma lazy_any_sound (acc s : text) (r : Re.groups) :
  Re.lazy_any k acc s = Some r ->
  exists g s' r', s = g ++ s' /\ k s' = Some r' /\ r = (rev acc ++ g) :: r'.
Proof.
  revert acc. induction s as [|c s IH]; intros acc; simpl.
  - destruct (k []) as [r'|] eqn:E; [|discriminate].
    intros [= <-]. exists [], [], r'. rewrite (app_nil_r (rev acc)). auto.
  - destruct (k (c :: s)) as [r'|] eqn:E.
    + intros [= <-]. exists [], (c :: s), r'. rewrite (app_nil_r (rev acc)). auto.
    + intros H. destruct (IH _ H) as (g & s' & r' & -> & Hk & ->).
      exists (c :: g), s', r'. simpl. rewrite <- app_assoc. auto.
Qed.

Lemma lazy_any_hit (acc s : text) (r : Re.groups) :
  k s = Some r -> Re.lazy_any k acc s = Some (rev acc :: r).
Proof. intros H. destruct s; simpl; now rewrite H. Qed.

(** The capture grows over every position where the rest does not match. *)
Lemma lazy_any_skip (g acc s : text) :
  (forall g1 c g2, g = g1 ++ c :: g2 -> k (c :: g2 ++ s) = None) ->
  Re.lazy_any k acc (g ++ s) = Re.lazy_any k (rev g ++ acc) s.
Proof.
  revert acc. induction g as [|c g IH]; intros acc H; [reflexivity|].
  simpl. rewrite (H [] c g eq_refl), IH.
  - now rewrite <- app_assoc.
  - intros g1 d g2 ->. apply (H (c :: g1) d g2). reflexivity.
Qed.

Lemma lazy_any_none (acc s : text) :
  (forall pre v, s = pre ++ v -> k v = None) ->
  Re.lazy_any k acc s = None.
Proof.
  revert acc. induction s as [|c s IH]; intros acc H; simpl.
  - now rewrite (H [] [] eq_refl).
  - rewrite (H [] (c :: s) eq_refl). apply IH.
    intros pre v ->. apply (H (c :: pre) v). reflexivity.
Qed.

Lemma lazy_any_complete (g acc s : text) :
  is_Some (k s) -> is_Some (Re.lazy_any k acc (g ++ s)).
Proof.
  intros [r Hr]. revert acc. induction g as [|c g IH]; intros acc; simpl.
  - rewrite (lazy_any_hit _ _ _ Hr). eauto.
  - destruct (k (c :: g ++ s)); [eauto | apply IH].
Qed.

End Continuation.

Lemma match_here_groups (p : Re.pattern) (s : text) (r : Re.groups) :
  Re.match_here p s = Some r -> length r = group_count p.
Proof.
  revert s r. induction p as [|n p IH]; intros s r; simpl.
  - now intros [= <-].
  - destruct n as [l| | |cs].
    + destruct (Re.eat l s); [apply IH | discriminate].
    + intros H. apply greedy_spaces_sound in H.
      destruct H as (_ & s' & _ & _ & H). eapply IH, H.
    + intros H. apply lazy_any_sound in H.
      destruct H as (g & s' & r' & _ & H & ->). simpl. f_equal. eapply IH, H.
    + destruct s as [|c s]; [discriminate|].
      destruct (existsb (N.eqb c) cs); [|discriminate].
      destruct (Re.match_here p s) as [r'|] eqn:E; [|discriminate].
      intros [= <-]. simpl. f_equal. eapply IH, E.
Qed.

(** What the matcher accepts is a prefix in the pattern's language. *)
Lemma match_here_sound (p : Re.pattern) (s : text) (r : Re.groups) :
  Re.match_here p s = Some r ->
  exists m post, s = m ++ post /\ Re.lang p m.
Proof.
  revert s r. induction p as [|n p IH]; intros s r; simpl.
  - intros _. exists [], s. auto.
  - destruct n as [l| | |cs].
    + destruct (Re.eat l s) as [s'|] eqn:E; [|discriminate].
      intros H. apply eat_Some in E. subst s.
      destruct (IH _ _ H) as (m & post & -> & Hm).
      exists (l ++ m), post. split; [now rewrite <- app_assoc | eauto].
    + intros H. apply greedy_spaces_sound in H.
      destruct H as (w & s' & -> & Hw & H).
      destruct (IH _ _ H) as (m & post & -> & Hm).
      exists (w ++ m), post. split; [now rewrite <- app_assoc | eauto 6].
    + intros H. apply lazy_any_sound in H.
      destruct H as (g & s' & r' & -> & H & _).
      destruct (IH _ _ H) as (m & post & -> & Hm).
      exists (g ++ m), post. split; [now rewrite <- app_assoc | eauto].
    + destruct s as [|c s]; [discriminate|].
      destruct (existsb (N.eqb c) cs) eqn:Hc; [|discriminate].
      destruct (Re.match_here p s) as [r'|] eqn:E; [|discriminate].
      intros _. destruct (IH _ _ E) as (m & post & -> & Hm).
      exists (c :: m), post. split; [reflexivity|].
      exists c, m. split; [reflexivity|]. split; [|exact Hm].
      apply existsb_exists in Hc. destruct Hc as (d & Hd & Hcd).
      apply N.eqb_eq in Hcd. now subst d.
Qed.

(** Every prefix in the pattern's language is found by backtracking. *)
Lemma match_here_complete (p : Re.pattern) (m post : text) :
  Re.lang p m -> is_Some (Re.match_here p (m ++ post)).
Proof.
  revert m. induction p as [|n p IH]; intros m; simpl.
  - eauto.
  - destruct n as [l| | |cs].
    + intros (s' & -> & H). rewrite <- app_assoc, eat_app. now apply IH.
    + intros (w & s' & -> & Hw & H). rewrite <- app_assoc.
      apply greedy_spaces_complete; [exact Hw | now apply IH].
    + intros (g & s' & -> & H). rewrite <- app_assoc.
      apply lazy_any_complete. now apply IH.
    + intros (c & s' & -> & Hc & H). simpl.
      assert (E : existsb (N.eqb c) cs = true).
      { apply existsb_exists. exists c. split; [exact Hc | apply N.eqb_refl]. }
      rewrite E. destruct (IH _ H) as [r ->]. eauto.
Qed.

Lemma search_sound (p : Re.pattern) (s : text) (r : Re.groups) :
  Re.search p s = Some r ->
  length r = group_count p /\
  exists pre m post, s = pre ++ m ++ post /\ Re.lang p m.
Proof.
  induction s as [|c s IH]; simpl.
  - destruct (Re.match_here p []) as [r'|] eqn:E; [|discriminate].
    intros [= <-]. split; [eapply match_here_groups, E|].
    destruct (match_here_sound _ _ _ E) as (m & post & Hs & Hm).
    exists [], m, post. auto.
  - destruct (Re.match_here p (c :: s)) as [r'|] eqn:E.
    + intros [= <-]. split; [eapply match_here_groups, E|].
      destruct (match_here_sound _ _ _ E) as (m & post & Hs & Hm).
      exists [], m, post. auto.
    + intros H. destruct (IH H) as (Hl & pre & m & post & -> & Hm).
      split; [exact Hl|]. exists (c :: pre), m, post. auto.
Qed.

Lemma search_complete (p : Re.pattern) (pre m post : text) :
  Re.lang p m -> is_Some (Re.search p (pre ++ m ++ post)).
Proof.
  intros Hm. induction pre as [|c pre IH]; simpl.
  - destruct (match_here_complete p m post Hm) as [r Hr].
    destruct (m ++ post); simpl; rewrite Hr; eauto.
  - destruct (Re.match_here p (c :: pre ++ m ++ post)); [eauto | exact IH].
Qed.

(** Positions where the pattern does not match are passed over. *)
Lemma search_skip (p : Re.pattern) (pre s : text) :
  (forall pre1 c pre2, pre = pre1 ++ c :: pre2 ->
     Re.match_here p (c :: pre2 ++ s) = None) ->
  Re.search p (pre ++ s) = Re.search p s.
Proof.
  induction pre as [|c pre IH]; intros H; [reflexivity|].
  simpl. rewrite (H [] c pre eq_refl). apply IH.
  intros pre1 d pre2 ->. apply (H (c :: pre1) d pre2). reflexivity.
Qed.

(** * The parser on well-laid-out responses *)

Lemma match_lit (l : text) (p : Re.pattern) (s : text) :
  Re.match_here (Re.Lit l :: p) (l ++ s) = Re.match_here p s.
Proof. simpl. now rewrite eat_app. Qed.

Lemma match_lit_absent (l : text) (p : Re.pattern) (s : text) :
  (forall post, s <> l ++ post) -> Re.match_here (Re.Lit l :: p) s = None.
Proof.
  intros H. simpl. destruct (Re.eat l s) as [s'|] eqn:E; [|reflexivity].
  apply eat_Some in E. now destruct (H s').
Qed.

(** One labelled field: [\s*(.*?)] followed by the next label captures the
    field without its leading whitespace. *)
Lemma field_segment (lab : text) (p : Re.pattern) (f u : text) (r : Re.groups) :
  one_line f ->
  lstrip (lab ++ u) = lab ++ u ->
  Re.match_here p u = Some r ->
  (lstrip f = [] -> ~ occurs (nl :: lab) (lab ++ u)) ->
  Re.match_here (Re.Spaces :: Re.GroupAnyLazy :: Re.Lit (nl :: lab) :: p)
    (f ++ nl :: lab ++ u) = Some (lstrip f :: r).
Proof.
  intros Hline Hlab Hr Hblank.
  change (Re.greedy_spaces
            (Re.lazy_any (Re.match_here (Re.Lit (nl :: lab) :: p)) [])
            (f ++ nl :: lab ++ u) = Some (lstrip f :: r)).
  assert (Hhit : Re.match_here (Re.Lit (nl :: lab) :: p) (nl :: lab ++ u) = Some r).
  { rewrite <- Hr. apply (match_lit (nl :: lab)). }
  apply lstrip_one_line in Hline.
  destruct (lstrip_split f) as (w & Hf & Hw).
  destruct (lstrip f) as [|c g] eqn:Hg; rewrite Hf, <- app_assoc;
    apply greedy_spaces_run; try exact Hw.
  - cbn [app Re.greedy_spaces]. rewrite isspace_nl.
    rewrite (greedy_spaces_stop _ _ Hlab), lazy_any_none.
    + now apply lazy_any_hit.
    + intros pre v Hv. apply match_lit_absent. intros post ->.
      apply (Hblank eq_refl). exists pre, post. exact Hv.
  - rewrite greedy_spaces_stop.
    + rewrite (lazy_any_skip _ (c :: g)).
      * rewrite (lazy_any_hit _ _ _ _ Hhit), app_nil_r, rev_involutive.
        reflexivity.
      * intros g1 d g2 Hsplit. apply match_lit_absent. intros post [= -> _].
        apply Hline. rewrite Hsplit. apply in_or_app. right. now left.
    + cbn [app lstrip]. now rewrite (lstrip_head _ _ _ Hg).
Qed.

Lemma search_hit (p : Re.pattern) (s : text) (r : Re.groups) :
  Re.match_here p s = Some r -> Re.search p s = Some r.
Proof. intros H. destruct s; simpl; now rewrite H. Qed.

Ltac one_line_label := clear; unfold one_line; cbn; unfold nl; intuition discriminate.

(** Follow an occurrence of a line label through the lines after it. *)
Ltac chase H :=
  repeat first
    [ apply occurs_past_line in H; [| solve [assumption | one_line_label] ]
    | apply occurs_cons_inv in H; destruct H as [H | H];
      [ exfalso; apply H; reflexivity |] ].

Lemma answer_segment (w : text) (l : N) (rest : text) :
  forallb isspace w = true -> List.In l (str "ABCD") ->
  Re.match_here [Re.Spaces; Re.GroupOneOf (str "ABCD")] (w ++ l :: rest)
  = Some [[l]].
Proof.
  intros Hw Hl.
  change (Re.greedy_spaces (Re.match_here [Re.GroupOneOf (str "ABCD")])
            (w ++ l :: rest) = Some [[l]]).
  apply greedy_spaces_run; [exact Hw|].
  cbn in Hl. destruct Hl as [<- | [<- | [<- | [<- | []]]]]; reflexivity.
Qed.

(** The pattern, matched at the start of a response in the layout: each
    group is its field without the leading whitespace. *)
Lemma match_mcq_text (q a b c d w : text) (l : N) (rest : text) :
  field_ok q (str "A.") (w ++ l :: rest) ->
  field_ok a (str "B.") (w ++ l :: rest) ->
  field_ok b (str "C.") (w ++ l :: rest) ->
  field_ok c (str "D.") (w ++ l :: rest) ->
  field_ok d (str "Answer:") (w ++ l :: rest) ->
  forallb isspace w = true ->
  List.In l (str "ABCD") ->
  Re.match_here mcq_pattern (mcq_text q a b c d (w ++ l :: rest))
  = Some [lstrip q; lstrip a; lstrip b; lstrip c; lstrip d; [l]].
Proof.
  intros [Lq Bq] [La Ba] [Lb Bb] [Lc Bc] [Ld Bd] Hw Hl.
  unfold mcq_pattern, mcq_text. rewrite match_lit.
  apply field_segment; [exact Lq | reflexivity | | intros E H; apply (Bq E); chase H; exact H].
  apply field_segment; [exact La | reflexivity | | intros E H; apply (Ba E); chase H; exact H].
  apply field_segment; [exact Lb | reflexivity | | intros E H; apply (Bb E); chase H; exact H].
  apply field_segment; [exact Lc | reflexivity | | intros E H; apply (Bc E); chase H; exact H].
  apply field_segment; [exact Ld | reflexivity | | intros E H; apply (Bd E); chase H; exact H].
  now apply answer_segment.
Qed.

Lemma answer_letter_not_space (l : N) : List.In l (str "ABCD") -> isspace l = false.
Proof. cbn. intros [<- | [<- | [<- | [<- | []]]]]; reflexivity. Qed.

(** C1. A response in the expected layout is parsed into the record of its
    labelled fields, each stripped of surrounding whitespace. The layout:
    the six labelled lines in order, each field on its own line (a blank
    field is allowed when the label that ends it does not come again after
    [Answer:]), the answer letter after [Answer:] and optional whitespace;
    commentary without [Q:] may precede the block and any text may follow
    the letter. *)
Theorem parse_mcq_layout (subject level pre q a b c d w : text) (l : N) (rest : text) :
  ~ occurs (str "Q:") pre ->
  field_ok q (str "A.") (w ++ l :: rest) ->
  field_ok a (str "B.") (w ++ l :: rest) ->
  field_ok b (str "C.") (w ++ l :: rest) ->
  field_ok c (str "D.") (w ++ l :: rest) ->
  field_ok d (str "Answer:") (w ++ l :: rest) ->
  forallb isspace w = true ->
  List.In l (str "ABCD") ->
  parse_mcq subject level (pre ++ mcq_text q a b c d (w ++ l :: rest))
  = Some {| mcq_subject := subject;
            mcq_level := level;
            mcq_question := strip q;
            mcq_options := {| opt_A := strip a; opt_B := strip b;
                              opt_C := strip c; opt_D := strip d |};
            mcq_correct := [l] |}.
Proof.
  intros Hpre Hq Ha Hb Hc Hd Hw Hl.
  unfold parse_mcq. rewrite search_skip.
  - rewrite (search_hit _ _ _ (match_mcq_text _ _ _ _ _ _ _ _ Hq Ha Hb Hc Hd Hw Hl)).
    now rewrite !strip_lstrip, (strip_letter _ (answer_letter_not_space _ Hl)).
  - intros pre1 x pre2 Hsplit. apply match_lit_absent. intros post Heq.
    apply Hpre. rewrite Hsplit. unfold mcq_text in Heq. cbn in Heq.
    injection Heq as -> Heq. destruct pre2 as [|y pre2]; cbn in Heq.
    + discriminate.
    + injection Heq as -> _. exists pre1, pre2. reflexivity.
Qed.

(** * Acceptance and rejection *)

Ltac lang_lit := eexists; split; [reflexivity|].
Ltac lang_spaces w := exists w; eexists; split; [reflexivity|]; split; [assumption|].
Ltac lang_group g := exists g; eexists; split; [reflexivity|].

(** The language of the script's pattern, written out. *)
Lemma lang_mcq_pattern (m : text) :
  Re.lang mcq_pattern m <->
  exists w1 g1 w2 g2 w3 g3 w4 g4 w5 g5 w6 l,
    m = str "Q:" ++ w1 ++ g1 ++ (nl :: str "A.") ++ w2 ++ g2
        ++ (nl :: str "B.") ++ w3 ++ g3 ++ (nl :: str "C.") ++ w4 ++ g4
        ++ (nl :: str "D.") ++ w5 ++ g5 ++ (nl :: str "Answer:") ++ w6 ++ [l]
    /\ forallb isspace (w1 ++ w2 ++ w3 ++ w4 ++ w5 ++ w6) = true
    /\ List.In l (str "ABCD").
Proof.
  unfold mcq_pattern. cbn [Re.lang]. split.
  - intros (s1 & -> & w1 & s2 & -> & H1 & g1 & s3 & -> &
            s4 & -> & w2 & s5 & -> & H2 & g2 & s6 & -> &
            s7 & -> & w3 & s8 & -> & H3 & g3 & s9 & -> &
            s10 & -> & w4 & s11 & -> & H4 & g4 & s12 & -> &
            s13 & -> & w5 & s14 & -> & H5 & g5 & s15 & -> &
            s16 & -> & w6 & s17 & -> & H6 & l & s18 & -> & Hl & ->).
    exists w1, g1, w2, g2, w3, g3, w4, g4, w5, g5, w6, l.
    split; [reflexivity|]. split; [|exact Hl].
    rewrite !forallb_app, H1, H2, H3, H4, H5, H6. reflexivity.
  - intros (w1 & g1 & w2 & g2 & w3 & g3 & w4 & g4 & w5 & g5 & w6 & l & -> & Hw & Hl).
    rewrite !forallb_app in Hw.
    repeat (apply andb_prop in Hw; destruct Hw as [? Hw]).
    lang_lit. lang_spaces w1. lang_group g1.
    lang_lit. lang_spaces w2. lang_group g2.
    lang_lit. lang_spaces w3. lang_group g3.
    lang_lit. lang_spaces w4. lang_group g4.
    lang_lit. lang_spaces w5. lang_group g5.
    lang_lit. lang_spaces w6.
    exists l, []. split; [reflexivity|]. split; [exact Hl | reflexivity].
Qed.

Lemma parse_mcq_search (subject level t : text) :
  is_Some (parse_mcq subject level t) <-> is_Some (Re.search mcq_pattern t).
Proof.
  unfold parse_mcq. split.
  - destruct (Re.search mcq_pattern t); [eauto | intros [? [=]]].
  - intros [r Hr]. rewrite Hr. apply search_sound in Hr. destruct Hr as [Hlen _].
    cbn in Hlen.
    destruct r as [|? [|? [|? [|? [|? [|? [|? ?]]]]]]]; try discriminate. eauto.
Qed.

Lemma occurs_refl (t : text) : occurs t t.
Proof. exists [], []. now rewrite app_nil_r. Qed.

Ltac found := repeat first [apply occurs_refl | apply occurs_here | apply occurs_app_r].

(** Every label of the pattern occurs in a text the parser accepts. *)
Lemma parse_mcq_labels (subject level t : text) :
  is_Some (parse_mcq subject level t) -> ~ missing_label t.
Proof.
  intros H. apply parse_mcq_search in H. destruct H as [r Hr].
  apply search_sound in Hr. destruct Hr as (_ & pre & m & post & -> & Hm).
  apply lang_mcq_pattern in Hm.
  destruct Hm as (w1 & g1 & w2 & g2 & w3 & g3 & w4 & g4 & w5 & g5 & w6 & l
                  & -> & Hw & Hl).
  unfold missing_label. intros [H | [H | [H | [H | [H | H]]]]]; apply H; clear H.
  1-5: apply occurs_app_r, occurs_app_l; found.
  exists w6, l. rewrite !forallb_app in Hw.
  repeat (apply andb_prop in Hw; destruct Hw as [_ Hw]).
  split; [exact Hw|]. split; [exact Hl|].
  apply occurs_app_r, occurs_app_l.
  change (nl :: str "Answer:" ++ w6 ++ [l]) with ((nl :: str "Answer:") ++ w6 ++ [l]).
  found.
Qed.

(** C2, as stated, fails: the response with commentary before and after the
    question block is not matched in full by the pattern, and it is parsed
    all the same. *)
Lemma parse_mcq_accepts_commentary :
  ~ Re.lang mcq_pattern chatty_response
  /\ parse_mcq (str "Math") (str "Beginner") chatty_response
     = Some {| mcq_subject := str "Math";
               mcq_level := str "Beginner";
               mcq_question := str "What is 2+2?";
               mcq_options := {| opt_A := str "3"; opt_B := str "4";
                                 opt_C := str "5"; opt_D := str "6" |};
               mcq_correct := str "B" |}.
Proof.
  split; [|vm_compute; reflexivity].
  intros H. apply lang_mcq_pattern in H.
  destruct H as (w1 & g1 & w2 & g2 & w3 & g3 & w4 & g4 & w5 & g5 & w6 & l & H & _).
  discriminate H.
Qed.

(** C2, amended. The parser succeeds exactly when the pattern matches some
    part of the text ([re.search]): text before the block and after the
    answer letter is ignored, and a text no part of which matches yields no
    record. *)
Theorem parse_mcq_iff_match_somewhere (subject level t : text) :
  is_Some (parse_mcq subject level t) <->
  exists pre m post, t = pre ++ m ++ post /\ Re.lang mcq_pattern m.
Proof.
  rewrite parse_mcq_search. split.
  - intros [r Hr]. apply search_sound in Hr. tauto.
  - intros (pre & m & post & -> & Hm). now apply search_complete.
Qed.

(** C3. A text that lacks one of the required labels, or the answer line
    with its letter, is rejected: the parser returns [None]. *)
Theorem parse_mcq_missing_label (subject level t : text) :
  missing_label t -> parse_mcq subject level t = None.
Proof.
  intros Hmiss. destruct (parse_mcq subject level t) as [r|] eqn:E; [|reflexivity].
  exfalso. apply (parse_mcq_labels subject level t); [rewrite E; eauto | exact Hmiss].
Qed.

Lemma parse_mcq_missing_label_witness :
  missing_label three_option_response
  /\ parse_mcq (str "Math") (str "Beginner") three_option_response = None.
Proof.
  assert (H : missing_label three_option_response).
  { right; right; right; left. apply not_occurs. reflexivity. }
  split; [exact H | exact (parse_mcq_missing_label _ _ _ H)].
Defined.

Lemma parse_mcq_layout_witness :
  parse_mcq (str "Math") (str "Beginner")
    (str "Here you go." ++ [nl]
     ++ mcq_text (str " What is 2+2?  ") (str " 3") (str "   ") (str " 5 ")
          (str " 6") (str " " ++ [66; nl] ++ str "Good luck!"))
  = Some {| mcq_subject := str "Math";
            mcq_level := str "Beginner";
            mcq_question := strip (str " What is 2+2?  ");
            mcq_options := {| opt_A := strip (str " 3"); opt_B := strip (str "   ");
                              opt_C := strip (str " 5 "); opt_D := strip (str " 6") |};
            mcq_correct := [66] |}.
Proof.
  apply (parse_mcq_layout (str "Math") (str "Beginner") (str "Here you go." ++ [nl])
           (str " What is 2+2?  ") (str " 3") (str "   ") (str " 5 ") (str " 6")
           (str " ") 66 (nl :: str "Good luck!")).
  - apply not_occurs. reflexivity.
  - split; [one_line_label | intros _; apply not_occurs; reflexivity].
  - split; [one_line_label | intros _; apply not_occurs; reflexivity].
  - split; [one_line_label | intros _; apply not_occurs; reflexivity].
  - split; [one_line_label | intros _; apply not_occurs; reflexivity].
  - split; [one_line_label | intros _; apply not_occurs; reflexivity].
  - reflexivity.
  - cbn. tauto.
Defined.

(** * The accumulator loop *)

Lemma model_calls_app (tr es : list event) :
  model_calls (tr ++ es) = (model_calls tr + model_calls es)%nat.
Proof.
  induction tr as [|e tr IH]; [reflexivity|].
  destruct e; cbn [app model_calls]; now rewrite IH.
Qed.

Ltac loop_vars :=
  cbn [emit accept count_try tries dataset seen_questions trace].

Section Loop.

Variables subject level : text.
Variable client : model_client.

Local Abbreviation body := (loop_body subject level client).
Local Abbreviation loop := (while_loop subject level client).
Local Abbreviation reach := (after subject level client).

(** What an iteration that completes does to the loop's variables: it
    counts one try, makes one model call, and either leaves the dataset
    alone or appends one record whose question was not seen before. *)
Lemma loop_body_continue (st st' : state) :
  body st = Continue st' ->
  tries st' = S (tries st)
  /\ model_calls (trace st') = S (model_calls (trace st))
  /\ ((dataset st' = dataset st /\ seen_questions st' = seen_questions st)
      \/ exists parsed,
           (mcq_question parsed ∉ seen_questions st)
           /\ dataset st' = dataset st ++ [parsed]
           /\ seen_questions st' = seen_questions st ∪ {[ mcq_question parsed ]}).
Proof.
  unfold loop_body.
  destruct (client _ _) as [t|e]; cbn [emit tries seen_questions dataset trace].
  - destruct (parse_mcq subject level t) as [parsed|].
    + destruct (decide (mcq_question parsed ∉ seen_questions st)) as [Hnew|Hold];
        intros [= <-]; loop_vars; rewrite !model_calls_app; cbn [model_calls];
        (split; [reflexivity|]); (split; [lia|]); [right | left]; eauto.
    + intros [= <-]; loop_vars; rewrite !model_calls_app; cbn [model_calls].
      split; [reflexivity|]. split; [lia|]. left. auto.
  - destruct (is_Exception e); [|discriminate].
    intros [= <-]; loop_vars; rewrite !model_calls_app; cbn [model_calls].
    split; [reflexivity|]. split; [lia|]. left. auto.
Qed.

(** An iteration ended by an exception the handler does not catch made
    its model call and changed nothing else. *)
Lemma loop_body_raise (st st' : state) (e : exn) :
  body st = Raise e st' ->
  is_Exception e = false
  /\ tries st' = tries st /\ dataset st' = dataset st
  /\ seen_questions st' = seen_questions st
  /\ model_calls (trace st') = S (model_calls (trace st)).
Proof.
  unfold loop_body.
  destruct (client _ _) as [t|e']; cbn [emit tries seen_questions dataset trace].
  - destruct (parse_mcq subject level t) as [parsed|]; [|discriminate].
    destruct (decide _); discriminate.
  - destruct (is_Exception e') eqn:He; [discriminate|].
    intros [= <- <-]; loop_vars. rewrite model_calls_app; cbn [model_calls].
    repeat split; [exact He | lia].
Qed.

Lemma loop_inv_step (st st' : state) :
  loop_cond st = true -> body st = Continue st' ->
  loop_inv st -> loop_inv st'.
Proof.
  unfold loop_cond, loop_inv. intros Hc Hb (Hlen & Htries & Hcalls & Hnd & Hseen).
  apply andb_prop in Hc. destruct Hc as [Hc1 Hc2].
  apply Nat.ltb_lt in Hc1, Hc2.
  apply loop_body_continue in Hb.
  destruct Hb as (-> & -> & [[-> ->] | (parsed & Hnew & -> & ->)]).
  - repeat split; try assumption; try lia; apply Hseen.
  - rewrite length_app, map_app. cbn.
    split; [lia|]. split; [lia|]. split; [lia|]. split.
    + apply NoDup_app. split; [exact Hnd|]. split; [|apply NoDup_singleton].
      intros q Hq Hq'. apply list_elem_of_singleton in Hq'. subst q.
      apply Hnew, Hseen, Hq.
    + intros q. rewrite elem_of_union, elem_of_singleton, elem_of_app,
        list_elem_of_singleton, Hseen. reflexivity.
Qed.

(** Every state the loop passes through satisfies the invariant, and the
    number of iterations so far is its try counter. *)
Lemma after_inv (k : nat) (st0 st : state) :
  loop_inv st0 -> reach k st0 = Some st ->
  loop_inv st /\ tries st = (tries st0 + k)%nat.
Proof.
  revert st0. induction k as [|k IH]; intros st0 Hinv; simpl.
  - intros [= <-]. split; [exact Hinv | lia].
  - destruct (loop_cond st0) eqn:Hc; [|discriminate].
    destruct (body st0) as [st1|] eqn:Hb; [|discriminate].
    intros H. destruct (IH st1 (loop_inv_step _ _ Hc Hb Hinv) H) as [Hi Ht].
    split; [exact Hi|]. apply loop_body_continue in Hb. lia.
Qed.

(** From a state that satisfies the invariant, the loop ends within the
    tries that are left, in a state within the bounds. *)
Lemma while_loop_terminates (fuel : nat) (st : state) :
  loop_inv st -> (30 - tries st <= fuel)%nat ->
  exists e, loop fuel st = Some e
            /\ (length (dataset (final_state e)) <= 10)%nat
            /\ (tries (final_state e) <= 30)%nat
            /\ (model_calls (trace (final_state e)) <= 30)%nat
            /\ NoDup (map mcq_question (dataset (final_state e))).
Proof.
  revert st. induction fuel as [|fuel IH]; intros st Hinv Hfuel; simpl.
  - destruct (loop_cond st) eqn:Hc.
    + unfold loop_cond in Hc. apply andb_prop in Hc. destruct Hc as [_ Hc].
      apply Nat.ltb_lt in Hc. lia.
    + exists (Finished st). destruct Hinv as (? & ? & ? & ? & _).
      cbn. repeat split; try assumption; lia.
  - destruct (loop_cond st) eqn:Hc.
    + destruct (body st) as [st'|e st'] eqn:Hb.
      * apply IH; [eapply loop_inv_step; eassumption|].
        apply loop_body_continue in Hb. lia.
      * exists (Uncaught e st'). apply loop_body_raise in Hb.
        destruct Hb as (_ & Ht & Hd & _ & Hm).
        destruct Hinv as (? & ? & ? & ? & _).
        unfold loop_cond in Hc. apply andb_prop in Hc. destruct Hc as [_ Hc].
        apply Nat.ltb_lt in Hc.
        cbn. rewrite Ht, Hd, Hm. repeat split; try assumption; lia.
    + exists (Finished st). destruct Hinv as (? & ? & ? & ? & _).
      cbn. repeat split; try assumption; lia.
Qed.

Lemma initial_state_inv (api_key : text) :
  loop_inv (initial_state api_key subject level).
Proof.
  unfold loop_inv. cbn. repeat split; try lia; try apply NoDup_nil_2.
  - intros H. now apply elem_of_empty in H.
  - intros H. now apply elem_of_nil in H.
Qed.

End Loop.

Section Scenarios.

Variables subject level : text.
Variable client : model_client.

Local Abbreviation body := (loop_body subject level client).
Local Abbreviation loop := (while_loop subject level client).
Local Abbreviation reach := (after subject level client).
Local Abbreviation prompt_of st :=
  (build_prompt subject level (length (dataset st))).

(** A new question is appended. *)
Lemma body_accept (st : state) (t : text) (parsed : mcq) :
  client (tries st) (prompt_of st) = Returned t ->
  parse_mcq subject level t = Some parsed ->
  mcq_question parsed ∉ seen_questions st ->
  exists st', body st = Continue st'
              /\ dataset st' = dataset st ++ [parsed]
              /\ tries st' = S (tries st).
Proof.
  intros Hc Hp Hnew. unfold loop_body. loop_vars. rewrite Hc, Hp.
  destruct (decide _) as [_|Hold]; [|contradiction].
  eexists. split; [reflexivity|]. loop_vars. auto.
Qed.

(** A question already seen is skipped. *)
Lemma body_duplicate (st : state) (t : text) (parsed : mcq) :
  client (tries st) (prompt_of st) = Returned t ->
  parse_mcq subject level t = Some parsed ->
  mcq_question parsed ∈ seen_questions st ->
  exists st', body st = Continue st'
              /\ dataset st' = dataset st
              /\ tries st' = S (tries st).
Proof.
  intros Hc Hp Hseen. unfold loop_body. loop_vars. rewrite Hc, Hp.
  destruct (decide _) as [Hnew|_]; [contradiction|].
  eexists. split; [reflexivity|]. loop_vars. auto.
Qed.

(** A response that does not parse is dropped. *)
Lemma body_parse_failure (st : state) (t : text) :
  client (tries st) (prompt_of st) = Returned t ->
  parse_mcq subject level t = None ->
  exists st', body st = Continue st'
              /\ dataset st' = dataset st
              /\ tries st' = S (tries st).
Proof.
  intros Hc Hp. unfold loop_body. loop_vars. rewrite Hc, Hp.
  eexists. split; [reflexivity|]. loop_vars. auto.
Qed.

(** An [Exception] is caught and logged. *)
Lemma body_exception (st : state) (e : exn) :
  client (tries st) (prompt_of st) = Raised e ->
  is_Exception e = true ->
  exists st', body st = Continue st'
              /\ dataset st' = dataset st
              /\ tries st' = S (tries st).
Proof.
  intros Hc He. unfold loop_body. loop_vars. rewrite Hc, He.
  eexists. split; [reflexivity|]. loop_vars. auto.
Qed.

Lemma after_snoc (k : nat) (st0 st st' : state) :
  reach k st0 = Some st -> loop_cond st = true -> body st = Continue st' ->
  reach (S k) st0 = Some st'.
Proof.
  revert st0. induction k as [|k IH]; intros st0.
  - intros [= ->] Hc Hb. simpl. now rewrite Hc, Hb.
  - intros H Hc Hb. cbn [after] in H |- *.
    destruct (loop_cond st0); [|discriminate].
    destruct (body st0) as [st1|]; [|discriminate].
    exact (IH st1 H Hc Hb).
Qed.

(** A state reached after [k] iterations in which the condition fails is
    where the loop finishes, given fuel for [k] iterations. *)
Lemma while_loop_after (k fuel : nat) (st0 st : state) :
  reach k st0 = Some st -> loop_cond st = false -> (k <= fuel)%nat ->
  loop fuel st0 = Some (Finished st).
Proof.
  revert st0 fuel. induction k as [|k IH]; intros st0 fuel.
  - intros [= ->] Hc _. destruct fuel; simpl; now rewrite Hc.
  - intros H Hc Hfuel. cbn [after] in H.
    destruct fuel as [|fuel]; [lia|]. simpl.
    destruct (loop_cond st0); [|discriminate].
    destruct (body st0) as [st1|]; [|discriminate].
    apply (IH st1 fuel H Hc). lia.
Qed.

(** Where the loop ends, the dataset is within its bound and its
    questions are distinct. *)
Lemma while_loop_final (fuel : nat) (st : state) (e : ended) :
  loop_inv st -> loop fuel st = Some e ->
  (length (dataset (final_state e)) <= 10)%nat
  /\ NoDup (map mcq_question (dataset (final_state e))).
Proof.
  revert st. induction fuel as [|fuel IH]; intros st Hinv; simpl;
    destruct (loop_cond st) eqn:Hc; try discriminate.
  - intros [= <-]. destruct Hinv as (? & _ & _ & ? & _). auto.
  - destruct (body st) as [st'|ex st'] eqn:Hb.
    + apply IH. eapply loop_inv_step; eassumption.
    + intros [= <-]. apply loop_body_raise in Hb.
      destruct Hb as (_ & _ & Hd & _). destruct Hinv as (? & _ & _ & ? & _).
      cbn. rewrite Hd. auto.
  - intros [= <-]. destruct Hinv as (? & _ & _ & ? & _). auto.
Qed.

End Scenarios.

(** C4. Whatever the model client returns or raises, after any number [k]
    of iterations the dataset holds at most 10 records, the try counter is
    [k] and [k] is at most 30; and from there the loop ends within the
    [30 - k] iterations that are left, with at most 10 records and at most
    30 model calls (one per execution of the body) in all. *)
Theorem loop_bounds (subject level api_key : text) (client : model_client)
    (k : nat) (st : state) :
  after subject level client k (initial_state api_key subject level) = Some st ->
  (length (dataset st) <= 10)%nat /\ tries st = k /\ (k <= 30)%nat
  /\ exists e, while_loop subject level client (30 - k) st = Some e
               /\ (length (dataset (final_state e)) <= 10)%nat
               /\ (model_calls (trace (final_state e)) <= 30)%nat.
Proof.
  intros H.
  destruct (after_inv _ _ _ _ _ _ (initial_state_inv subject level api_key) H)
    as [Hinv Ht].
  cbn in Ht. subst k.
  pose proof Hinv as (Hlen & Htries & _).
  split; [exact Hlen|]. split; [reflexivity|]. split; [exact Htries|].
  destruct (while_loop_terminates subject level client (30 - tries st) st Hinv
              (Nat.le_refl _)) as (e & He & Hd & _ & Hm & _).
  exists e. auto.
Qed.

(** C5. Whatever the model client does, after every iteration the question
    texts of the records in the dataset are pairwise different (compared
    as exact strings), and so they are where the loop ends. *)
Theorem dataset_questions_distinct (subject level api_key : text)
    (client : model_client) (k : nat) (st : state) :
  after subject level client k (initial_state api_key subject level) = Some st ->
  NoDup (map mcq_question (dataset st))
  /\ forall fuel e, while_loop subject level client fuel st = Some e ->
                    NoDup (map mcq_question (dataset (final_state e))).
Proof.
  intros H.
  destruct (after_inv _ _ _ _ _ _ (initial_state_inv subject level api_key) H)
    as [Hinv _].
  split; [apply Hinv|].
  intros fuel e He. eapply while_loop_final; eassumption.
Qed.

(** * Runs of the script *)

Lemma file_content_written (tr : list event) (dir content line : text) :
  file_content output_file
    (tr ++ [Makedirs dir; WriteFile output_file content; Print line])
  = Some content.
Proof.
  induction tr as [|e tr IH]; cbn [app file_content].
  - now rewrite decide_True.
  - now rewrite IH.
Qed.

(** In a list of distinct values indexed by call number, the value of call
    [k] is not among those of the calls before it. *)
Lemma fresh_among_earlier {A} (f : nat -> A) (n k : nat) :
  NoDup (map f (seq 0 n)) -> (k < n)%nat -> f k ∉ map f (seq 0 k).
Proof.
  intros Hnd Hk Hin.
  replace n with (k + S (n - S k))%nat in Hnd by lia.
  rewrite seq_app, map_app in Hnd. cbn [seq map Nat.add] in Hnd.
  apply NoDup_app in Hnd. destruct Hnd as (_ & Hdisj & _).
  apply (Hdisj _ Hin). left.
Qed.

Section Script.

Variable api_key : text.
Variable argv : list (list N).
Variable client : model_client.

Local Abbreviation subject := (argv_or argv 1 (str "General Knowledge")).
Local Abbreviation level := (argv_or argv 2 (str "Beginner")).
Local Abbreviation st0 := (initial_state api_key subject level).
Local Abbreviation reach := (after subject level client).

(** When the loop finishes, the script writes the dataset and exits. *)
Lemma script_finished (fuel k : nat) (st : state) :
  api_key <> [] ->
  reach k st0 = Some st -> loop_cond st = false -> (k <= fuel)%nat ->
  exists r, script fuel (Some api_key) argv client = Some r
            /\ run_error r = None
            /\ model_calls (run_trace r) = k
            /\ file_content output_file (run_trace r)
               = Some (Json.dump (dataset st)).
Proof.
  intros Hkey Hreach Hcond Hfuel.
  unfold script. destruct api_key as [|c key]; [contradiction|].
  rewrite (while_loop_after _ _ _ _ _ _ _ Hreach Hcond Hfuel).
  eexists. split; [reflexivity|]. cbn [run_error run_trace].
  split; [reflexivity|]. split; [|apply file_content_written].
  rewrite model_calls_app. cbn [model_calls].
  destruct (after_inv _ _ _ _ _ _ (initial_state_inv subject level (c :: key)) Hreach)
    as [(_ & _ & -> & _) ->].
  cbn. lia.
Qed.

(** C7. If every call of the model client raises an [Exception], none
    gets past the loop: the script runs through all 30 attempts, ends
    without an error, and writes the empty JSON array to the output
    file. *)
Theorem all_calls_fail (fuel : nat) :
  api_key <> [] ->
  (forall n p, exists e, client n p = Raised e /\ is_Exception e = true) ->
  (30 <= fuel)%nat ->
  exists r, script fuel (Some api_key) argv client = Some r
            /\ run_error r = None
            /\ model_calls (run_trace r) = 30%nat
            /\ file_content output_file (run_trace r) = Some (str "[]").
Proof.
  intros Hkey Hfail Hfuel.
  assert (Hreach : forall k, (k <= 30)%nat ->
            exists st, reach k st0 = Some st /\ dataset st = [] /\ tries st = k).
  { induction k as [|k IH]; intros Hk.
    - eexists. split; [reflexivity|]. auto.
    - destruct IH as (st & Hst & Hd & Ht); [lia|].
      destruct (Hfail (tries st) (build_prompt subject level (length (dataset st))))
        as (e & He & Hexc).
      destruct (body_exception _ _ _ _ _ He Hexc) as (st' & Hb & Hd' & Ht').
      exists st'. split; [|split; congruence].
      apply (after_snoc _ _ _ _ _ _ _ Hst); [|exact Hb].
      unfold loop_cond. rewrite Hd, Ht. cbn [length].
      apply andb_true_intro. split; apply Nat.ltb_lt; lia. }
  destruct (Hreach 30%nat (Nat.le_refl _)) as (st & Hst & Hd & Ht).
  destruct (script_finished fuel 30 st Hkey Hst) as (r & Hr & He & Hm & Hf).
  - unfold loop_cond. now rewrite Hd, Ht.
  - exact Hfuel.
  - exists r. rewrite Hd in Hf. auto.
Qed.

(** C6. If the first 10 calls return well-formed responses with 10
    different questions, the loop ends after exactly 10 attempts and the
    script writes exactly their 10 records to the output file, in the
    order of the calls. *)
Theorem ten_good_responses (fuel : nat) (t : nat -> text) (r : nat -> mcq) :
  api_key <> [] ->
  (forall i p, (i < 10)%nat -> client i p = Returned (t i)) ->
  (forall i, (i < 10)%nat -> parse_mcq subject level (t i) = Some (r i)) ->
  NoDup (map (fun i => mcq_question (r i)) (seq 0 10)) ->
  (10 <= fuel)%nat ->
  exists run, script fuel (Some api_key) argv client = Some run
              /\ run_error run = None
              /\ model_calls (run_trace run) = 10%nat
              /\ file_content output_file (run_trace run)
                 = Some (Json.dump (map r (seq 0 10))).
Proof.
  intros Hkey Hret Hparse Hdistinct Hfuel.
  assert (Hreach : forall k, (k <= 10)%nat ->
            exists st, reach k st0 = Some st
                       /\ dataset st = map r (seq 0 k) /\ tries st = k).
  { induction k as [|k IH]; intros Hk.
    - eexists. split; [reflexivity|]. auto.
    - destruct IH as (st & Hst & Hd & Ht); [lia|].
      destruct (after_inv _ _ _ _ _ _ (initial_state_inv subject level api_key) Hst)
        as [(_ & _ & _ & _ & Hseen) _].
      destruct (body_accept subject level client st (t k) (r k))
        as (st' & Hb & Hd' & Ht').
      + rewrite Ht. apply Hret. lia.
      + apply Hparse. lia.
      + rewrite Hseen, Hd, map_map.
        apply (fresh_among_earlier (fun i => mcq_question (r i)) 10 k Hdistinct).
        lia.
      + exists st'. split; [|split].
        * apply (after_snoc _ _ _ _ _ _ _ Hst); [|exact Hb].
          unfold loop_cond. rewrite Hd, Ht, length_map, length_seq.
          apply andb_true_intro. split; apply Nat.ltb_lt; lia.
        * rewrite Hd', Hd, seq_S, map_app. reflexivity.
        * congruence. }
  destruct (Hreach 10%nat (Nat.le_refl _)) as (st & Hst & Hd & Ht).
  destruct (script_finished fuel 10 st Hkey Hst) as (run & Hr & He & Hm & Hf).
  - unfold loop_cond. now rewrite Hd, length_map, length_seq.
  - exact Hfuel.
  - exists run. rewrite Hd in Hf. auto.
Qed.

End Script.

(** * The sample clients *)

Lemma strip_fresh_question (i : nat) :
  strip (32 :: fresh_question i) = fresh_question i.
Proof.
  unfold strip, rstrip, fresh_question. cbn [lstrip isspace repeat].
  change (isspace 32) with true. change (isspace 120) with false.
  cbv iota. change (120 :: repeat 120 i) with (repeat 120 (S i)).
  rewrite rev_repeat. cbn [repeat lstrip]. change (isspace 120) with false.
  cbv iota. change (120 :: repeat 120 i) with (repeat 120 (S i)).
  apply rev_repeat.
Qed.

Lemma parse_fresh_response (subject level : text) (i : nat) :
  parse_mcq subject level (fresh_response i) = Some (fresh_record subject level i).
Proof.
  assert (Hm : Re.match_here mcq_pattern (fresh_response i)
               = Some [lstrip (32 :: fresh_question i); lstrip (str " 1");
                       lstrip (str " 2"); lstrip (str " 3"); lstrip (str " 4");
                       [65]]).
  { refine (match_mcq_text (32 :: fresh_question i) (str " 1") (str " 2")
              (str " 3") (str " 4") (str " ") 65 [] _ _ _ _ _ eq_refl _).
    - split.
      + unfold one_line, fresh_question. intros [H | H]; [discriminate H|].
        apply repeat_spec in H. discriminate H.
      + discriminate.
    - split; [one_line_label | intros _; apply not_occurs; reflexivity].
    - split; [one_line_label | intros _; apply not_occurs; reflexivity].
    - split; [one_line_label | intros _; apply not_occurs; reflexivity].
    - split; [one_line_label | intros _; apply not_occurs; reflexivity].
    - cbn. tauto. }
  unfold parse_mcq. rewrite (search_hit _ _ _ Hm), strip_lstrip, strip_fresh_question.
  reflexivity.
Qed.

Lemma fresh_question_inj (i j : nat) : fresh_question i = fresh_question j -> i = j.
Proof.
  intros H. apply (f_equal (@length N)) in H. unfold fresh_question in H.
  rewrite !repeat_length in H. lia.
Qed.

Lemma alternating_client_alternates (subject level : text) :
  alternates subject level alternating_client (fresh_record subject level).
Proof.
  unfold alternates, alternating_client. split; [|split].
  - intros i p ->. eexists. split; [reflexivity | apply parse_fresh_response].
  - intros i p ->. eexists _, _. split; [reflexivity|]. split; reflexivity.
  - intros i j _ _. apply fresh_question_inj.
Qed.

(** * The alternating client *)

Lemma even_calls_S (k : nat) :
  even_calls (S k) = even_calls k ++ (if Nat.even k then [k] else []).
Proof.
  unfold even_calls. rewrite seq_S, List.filter_app. cbn [List.filter Nat.add].
  now destruct (Nat.even k).
Qed.

Lemma even_calls_spec (j k : nat) :
  j ∈ even_calls k <-> (j < k)%nat /\ Nat.even j = true.
Proof.
  unfold even_calls. rewrite list_elem_of_In, filter_In, in_seq. intuition lia.
Qed.

Lemma even_calls_length (k : nat) :
  (k < 19)%nat -> (length (even_calls k) < 10)%nat.
Proof.
  intros Hk. do 19 (destruct k as [|k]; [cbn; lia|]). lia.
Qed.

(** C8, amended. If the client alternates well-formed responses carrying
    fresh questions (even calls) with duplicates of the first response
    (odd calls), every even call adds a record and every odd call is
    skipped: the loop stops after 19 attempts with exactly 10 accepted
    records, those of the calls 0, 2, ..., 18 in order, before the limit
    of 30 attempts is reached. *)
Theorem alternating_client_fills_dataset (subject level api_key : text)
    (client : model_client) (r : nat -> mcq) (fuel : nat) :
  alternates subject level client r ->
  (19 <= fuel)%nat ->
  exists st,
    while_loop subject level client fuel (initial_state api_key subject level)
    = Some (Finished st)
    /\ tries st = 19%nat
    /\ dataset st = map r [0; 2; 4; 6; 8; 10; 12; 14; 16; 18]%nat
    /\ length (dataset st) = 10%nat.
Proof.
  intros (Hgood & Hdup & Hfresh) Hfuel.
  set (st0 := initial_state api_key subject level).
  assert (Hreach : forall k, (k <= 19)%nat ->
            exists st, after subject level client k st0 = Some st
                       /\ dataset st = map r (even_calls k) /\ tries st = k).
  { induction k as [|k IH]; intros Hk.
    - eexists. split; [reflexivity|]. auto.
    - destruct IH as (st & Hst & Hd & Ht); [lia|].
      destruct (after_inv _ _ _ _ _ _ (initial_state_inv subject level api_key) Hst)
        as [(_ & _ & _ & _ & Hseen) _].
      assert (Hcond : loop_cond st = true).
      { unfold loop_cond. rewrite Hd, Ht, length_map.
        pose proof (even_calls_length k).
        apply andb_true_intro. split; apply Nat.ltb_lt; lia. }
      rewrite even_calls_S.
      destruct (Nat.even k) eqn:Hpar.
      + destruct (Hgood k (build_prompt subject level (length (dataset st))) Hpar)
          as (t & Hc & Hp).
        destruct (body_accept subject level client st t (r k)) as (st' & Hb & Hd' & Ht');
          [now rewrite Ht | exact Hp | |].
        * rewrite Hseen, Hd, map_map. intros Hin.
          apply list_elem_of_fmap in Hin. destruct Hin as (j & Hq & Hj).
          apply even_calls_spec in Hj. destruct Hj as [Hlt Hj].
          apply (Hfresh _ _ Hpar Hj) in Hq. lia.
        * exists st'. split; [exact (after_snoc _ _ _ _ _ _ _ Hst Hcond Hb)|].
          rewrite Hd', Hd, map_app. split; [reflexivity | congruence].
      + destruct (Hdup k (build_prompt subject level (length (dataset st))) Hpar)
          as (t & d & Hc & Hp & Hq).
        destruct (body_duplicate subject level client st t d) as (st' & Hb & Hd' & Ht');
          [now rewrite Ht | exact Hp | |].
        * rewrite Hseen, Hd, Hq, map_map.
          apply (list_elem_of_fmap_2 (fun i => mcq_question (r i))).
          apply even_calls_spec. split; [|reflexivity].
          destruct k; [discriminate Hpar | lia].
        * exists st'. split; [exact (after_snoc _ _ _ _ _ _ _ Hst Hcond Hb)|].
          rewrite app_nil_r. split; congruence. }
  destruct (Hreach 19%nat (Nat.le_refl _)) as (st & Hst & Hd & Ht).
  exists st. split; [|split; [exact Ht | split; [exact Hd | now rewrite Hd]]].
  apply (while_loop_after _ _ _ 19 fuel _ _ Hst); [|exact Hfuel].
  unfold loop_cond. now rewrite Hd.
Qed.

(** C8, as stated, fails: the sample client alternates fresh well-formed
    responses with duplicates of the first, and the loop stops after 19
    attempts with 10 records, not at attempt 30 with 2. *)
Lemma alternating_client_stops_at_19 :
  alternates (str "Math") (str "Beginner") alternating_client
    (fresh_record (str "Math") (str "Beginner"))
  /\ exists st,
       while_loop (str "Math") (str "Beginner") alternating_client 30
         (initial_state (str "key") (str "Math") (str "Beginner"))
       = Some (Finished st)
       /\ tries st = 19%nat /\ length (dataset st) = 10%nat.
Proof.
  split; [apply alternating_client_alternates|].
  eexists. split; [vm_compute; reflexivity|]. split; reflexivity.
Qed.

Lemma alternating_client_fills_dataset_witness :
  exists st,
    while_loop (str "Math") (str "Beginner") alternating_client 30
      (initial_state (str "key") (str "Math") (str "Beginner"))
    = Some (Finished st)
    /\ tries st = 19%nat
    /\ dataset st = map (fresh_record (str "Math") (str "Beginner"))
                      [0; 2; 4; 6; 8; 10; 12; 14; 16; 18]%nat
    /\ length (dataset st) = 10%nat.
Proof.
  apply (alternating_client_fills_dataset (str "Math") (str "Beginner") (str "key")
           alternating_client (fresh_record (str "Math") (str "Beginner")) 30).
  - apply alternating_client_alternates.
  - lia.
Defined.

Lemma loop_bounds_witness :
  exists st,
    after (str "Math") (str "Beginner") alternating_client 3
      (initial_state (str "key") (str "Math") (str "Beginner")) = Some st
    /\ (length (dataset st) <= 10)%nat /\ tries st = 3%nat /\ (3 <= 30)%nat
    /\ exists e,
         while_loop (str "Math") (str "Beginner") alternating_client (30 - 3) st
         = Some e
         /\ (length (dataset (final_state e)) <= 10)%nat
         /\ (model_calls (trace (final_state e)) <= 30)%nat.
Proof.
  eexists. split; [vm_compute; reflexivity|].
  apply (loop_bounds (str "Math") (str "Beginner") (str "key") alternating_client 3).
  vm_compute. reflexivity.
Defined.

Lemma dataset_questions_distinct_witness :
  exists st,
    after (str "Math") (str "Beginner") alternating_client 3
      (initial_state (str "key") (str "Math") (str "Beginner")) = Some st
    /\ NoDup (map mcq_question (dataset st))
    /\ forall fuel e,
         while_loop (str "Math") (str "Beginner") alternating_client fuel st = Some e ->
         NoDup (map mcq_question (dataset (final_state e))).
Proof.
  eexists. split; [vm_compute; reflexivity|].
  apply (dataset_questions_distinct (str "Math") (str "Beginner") (str "key")
           alternating_client 3).
  vm_compute. reflexivity.
Defined.

Lemma ten_good_responses_witness :
  exists run,
    script 30 (Some (str "key")) [str "question_generator.py"; str "Python"]
      fresh_client = Some run
    /\ run_error run = None
    /\ model_calls (run_trace run) = 10%nat
    /\ file_content output_file (run_trace run)
       = Some (Json.dump (map (fresh_record (str "Python") (str "Beginner")) (seq 0 10))).
Proof.
  apply (ten_good_responses (str "key") [str "question_generator.py"; str "Python"]
           fresh_client 30 fresh_response
           (fresh_record (str "Python") (str "Beginner"))).
  - discriminate.
  - reflexivity.
  - intros i _. apply parse_fresh_response.
  - apply (bool_decide_unpack _). vm_compute. reflexivity.
  - lia.
Defined.

Lemma all_calls_fail_witness :
  exists r,
    script 30 (Some (str "key")) [str "question_generator.py"] failing_client = Some r
    /\ run_error r = None
    /\ model_calls (run_trace r) = 30%nat
    /\ file_content output_file (run_trace r) = Some (str "[]").
Proof.
  apply (all_calls_fail (str "key") [str "question_generator.py"] failing_client 30).
  - discriminate.
  - intros n p. eexists. split; reflexivity.
  - lia.
Defined.

(** * The credential check *)

(** C9. Without the API credential in the environment the script aborts
    with the startup error before anything else happens: its trace is
    empty, so no model call was made, no iteration of the loop ran, and no
    directory or file was created. *)
Theorem missing_credential_aborts (fuel : nat) (argv : list (list N))
    (client : model_client) :
  exists r, script fuel None argv client = Some r
            /\ run_error r = Some missing_key_error
            /\ run_trace r = []
            /\ model_calls (run_trace r) = 0%nat
            /\ file_content output_file (run_trace r) = None.
Proof. eexists. split; [reflexivity|]. cbn. auto. Qed.

(** C10. A credential that is set to the empty string is treated as an
    absent one: the same startup error, before anything else happens. *)
Theorem empty_credential_aborts (fuel : nat) (argv : list (list N))
    (client : model_client) :
  script fuel (Some []) argv client = script fuel None argv client
  /\ exists r, script fuel (Some []) argv client = Some r
               /\ run_error r = Some missing_key_error
               /\ run_trace r = [].
Proof. split; [reflexivity|]. eexists. split; [reflexivity|]. cbn. auto. Qed.

(** An exception that is not an [Exception], such as [KeyboardInterrupt],
    is not caught by the loop's handler: it ends the script, and nothing is
    written. *)
Example interrupt_ends_script :
  let interrupt := {| is_Exception := false; exn_str := [] |} in
  exists r,
    script 30 (Some (str "key")) [] (fun _ _ => Raised interrupt) = Some r
    /\ run_error r = Some interrupt
    /\ model_calls (run_trace r) = 1%nat
    /\ file_content output_file (run_trace r) = None.
Proof. eexists. split; [vm_compute; reflexivity|]. auto. Qed.

(** * Further properties of the parser *)

Lemma match_here_groups_sound (p : Re.pattern) (s : text) (r : Re.groups) :
  Re.match_here p s = Some r ->
  exists m post, s = m ++ post /\ lang_groups p m r.
Proof.
  revert s r. induction p as [|n p IH]; intros s r; simpl.
  - intros [= <-]. exists [], s. auto.
  - destruct n as [l| | |cs].
    + destruct (Re.eat l s) as [s'|] eqn:E; [|discriminate].
      intros H. apply eat_Some in E. subst s.
      destruct (IH _ _ H) as (m & post & -> & Hm).
      exists (l ++ m), post. split; [now rewrite <- app_assoc | eauto].
    + intros H. apply greedy_spaces_sound in H.
      destruct H as (w & s' & -> & Hw & H).
      destruct (IH _ _ H) as (m & post & -> & Hm).
      exists (w ++ m), post. split; [now rewrite <- app_assoc | eauto 6].
    + intros H. apply lazy_any_sound in H.
      destruct H as (g & s' & r' & -> & H & ->).
      destruct (IH _ _ H) as (m & post & -> & Hm).
      exists (g ++ m), post. split; [now rewrite <- app_assoc|].
      exists g, m, r'. auto.
    + destruct s as [|c s]; [discriminate|].
      destruct (existsb (N.eqb c) cs) eqn:Hc; [|discriminate].
      destruct (Re.match_here p s) as [r'|] eqn:E; [|discriminate].
      intros [= <-]. destruct (IH _ _ E) as (m & post & -> & Hm).
      exists (c :: m), post. split; [reflexivity|].
      exists c, m, r'. split; [reflexivity|]. split; [|auto].
      apply existsb_exists in Hc. destruct Hc as (d & Hd & Hcd).
      apply N.eqb_eq in Hcd. now subst d.
Qed.

(** Where [re.search] finds its match: at a position before which the
    pattern matches nowhere. *)
Lemma search_found (p : Re.pattern) (s : text) (r : Re.groups) :
  Re.search p s = Some r ->
  exists pre s', s = pre ++ s' /\ Re.match_here p s' = Some r
    /\ forall pre1 c pre2, pre = pre1 ++ c :: pre2 ->
         Re.match_here p (c :: pre2 ++ s') = None.
Proof.
  induction s as [|c s IH]; simpl.
  - destruct (Re.match_here p []) as [r'|] eqn:E; [|discriminate].
    intros [= <-]. exists [], []. split; [reflexivity|]. split; [exact E|].
    intros [|] ? ? [=].
  - destruct (Re.match_here p (c :: s)) as [r'|] eqn:E.
    + intros [= <-]. exists [], (c :: s). split; [reflexivity|]. split; [exact E|].
      intros [|] ? ? [=].
    + intros H. destruct (IH H) as (pre & s' & -> & Hm & Hnone).
      exists (c :: pre), s'. split; [reflexivity|]. split; [exact Hm|].
      intros [|d pre1] x pre2; cbn [app]; intros [= -> ->]; [exact E|].
      now apply (Hnone pre1 x pre2).
Qed.

(** The groups of the script's pattern, written out. *)
Lemma lang_groups_mcq_pattern (m : text) (r : Re.groups) :
  lang_groups mcq_pattern m r ->
  exists w1 g1 w2 g2 w3 g3 w4 g4 w5 g5 w6 l,
    m = str "Q:" ++ w1 ++ g1 ++ (nl :: str "A.") ++ w2 ++ g2
        ++ (nl :: str "B.") ++ w3 ++ g3 ++ (nl :: str "C.") ++ w4 ++ g4
        ++ (nl :: str "D.") ++ w5 ++ g5 ++ (nl :: str "Answer:") ++ w6 ++ [l]
    /\ forallb isspace (w1 ++ w2 ++ w3 ++ w4 ++ w5 ++ w6) = true
    /\ List.In l (str "ABCD")
    /\ r = [g1; g2; g3; g4; g5; [l]].
Proof.
  unfold mcq_pattern. cbn [lang_groups].
  intros (s1 & -> & w1 & s2 & -> & H1 & g1 & s3 & r1 & -> & -> &
          s4 & -> & w2 & s5 & -> & H2 & g2 & s6 & r2 & -> & -> &
          s7 & -> & w3 & s8 & -> & H3 & g3 & s9 & r3 & -> & -> &
          s10 & -> & w4 & s11 & -> & H4 & g4 & s12 & r4 & -> & -> &
          s13 & -> & w5 & s14 & -> & H5 & g5 & s15 & r5 & -> & -> &
          s16 & -> & w6 & s17 & -> & H6 & l & s18 & r6 & -> & Hl & -> & -> & ->).
  exists w1, g1, w2, g2, w3, g3, w4, g4, w5, g5, w6, l.
  split; [reflexivity|]. split; [|auto].
  rewrite !forallb_app, H1, H2, H3, H4, H5, H6. reflexivity.
Qed.

(** The match [re.search] finds for the script's pattern: it starts at the
    first [Q:] of the text, and each group is the text between two
    consecutive labels, after the whitespace that follows the label. *)
Lemma search_mcq_pattern (t : text) (r : Re.groups) :
  Re.search mcq_pattern t = Some r ->
  exists pre w1 g1 w2 g2 w3 g3 w4 g4 w5 g5 w6 l post,
    t = pre ++ (str "Q:" ++ w1 ++ g1 ++ (nl :: str "A.") ++ w2 ++ g2
        ++ (nl :: str "B.") ++ w3 ++ g3 ++ (nl :: str "C.") ++ w4 ++ g4
        ++ (nl :: str "D.") ++ w5 ++ g5 ++ (nl :: str "Answer:") ++ w6 ++ [l])
        ++ post
    /\ ~ occurs (str "Q:") (pre ++ str "Q")
    /\ forallb isspace (w1 ++ w2 ++ w3 ++ w4 ++ w5 ++ w6) = true
    /\ List.In l (str "ABCD")
    /\ r = [g1; g2; g3; g4; g5; [l]].
Proof.
  intros H. apply search_found in H. destruct H as (pre & s' & -> & Hm & Hnone).
  apply match_here_groups_sound in Hm. destruct Hm as (m & post & -> & Hm).
  apply lang_groups_mcq_pattern in Hm.
  destruct Hm as (w1 & g1 & w2 & g2 & w3 & g3 & w4 & g4 & w5 & g5 & w6 & l
                  & -> & Hw & Hl & ->).
  exists pre, w1, g1, w2, g2, w3, g3, w4, g4, w5, g5, w6, l, post.
  split; [reflexivity|]. split; [|auto].
  intros (a & b & Hocc).
  (* an earlier [Q:] would start a match of its own *)
  induction b as [|x b' _] using rev_ind.
  - rewrite app_nil_r in Hocc. apply (f_equal (@rev N)) in Hocc.
    rewrite !rev_app_distr in Hocc. cbn in Hocc. discriminate Hocc.
  - replace (a ++ str "Q:" ++ b' ++ [x]) with ((a ++ 81 :: 58 :: b') ++ [x]) in Hocc
      by (rewrite <- app_assoc; reflexivity).
    apply app_inj_tail in Hocc. destruct Hocc as [Hpre _].
    specialize (Hnone a 81 (58 :: b') Hpre).
    assert (Hsome : is_Some (Re.match_here mcq_pattern
              ((str "Q:" ++ [] ++ (b' ++ str "Q:" ++ w1 ++ g1) ++ (nl :: str "A.") ++ w2 ++ g2
                ++ (nl :: str "B.") ++ w3 ++ g3 ++ (nl :: str "C.") ++ w4 ++ g4
                ++ (nl :: str "D.") ++ w5 ++ g5 ++ (nl :: str "Answer:") ++ w6 ++ [l])
               ++ post))).
    { apply match_here_complete, lang_mcq_pattern.
      exists [], (b' ++ str "Q:" ++ w1 ++ g1), w2, g2, w3, g3, w4, g4, w5, g5, w6, l.
      split; [reflexivity|]. split; [|exact Hl].
      rewrite !forallb_app in Hw |- *.
      repeat (apply andb_prop in Hw; destruct Hw as [? Hw]).
      cbn [forallb]. repeat (apply andb_true_intro; split); first [reflexivity | assumption]. }
    destruct Hsome as [r' Hr'].
    match type of Hnone with
    | Re.match_here _ ?t1 = None =>
        match type of Hr' with
        | Re.match_here _ ?t2 = _ =>
            assert (E : t1 = t2)
              by (repeat progress (cbn; rewrite <- ?app_assoc); reflexivity)
        end
    end.
    rewrite E in Hnone. congruence.
Qed.

Lemma lstrip_snoc_keep (x : text) (c : N) :
  isspace c = false -> exists z, lstrip (x ++ [c]) = z ++ [c].
Proof.
  intros Hc. induction x as [|d x IH]; cbn [app lstrip].
  - rewrite Hc. now exists [].
  - destruct (isspace d); [exact IH|]. now exists (d :: x).
Qed.

(** [strip] leaves no whitespace at either end. *)
Lemma trimmed_strip (s : text) : trimmed (strip s).
Proof.
  unfold trimmed, strip, rstrip. split.
  - destruct (lstrip s) as [|c y] eqn:E; [reflexivity|].
    pose proof (lstrip_head _ _ _ E) as Hc.
    cbn [rev]. destruct (lstrip_snoc_keep (rev y) c Hc) as [z ->].
    rewrite rev_app_distr. cbn [rev app lstrip]. now rewrite Hc.
  - now rewrite rev_involutive, lstrip_idem.
Qed.

(** X1. Whatever the parser returns was read off the text: the match
    starts at the first [Q:] of the response, and every field of the
    record is the stripped text between two consecutive labels (after the
    whitespace that follows the label); the answer is the letter that
    follows [Answer:] and optional whitespace. *)
Theorem parse_mcq_fields_from_text (subject level t : text) (r : mcq) :
  parse_mcq subject level t = Some r ->
  exists pre w1 g1 w2 g2 w3 g3 w4 g4 w5 g5 w6 l post,
    t = pre ++ (str "Q:" ++ w1 ++ g1 ++ (nl :: str "A.") ++ w2 ++ g2
        ++ (nl :: str "B.") ++ w3 ++ g3 ++ (nl :: str "C.") ++ w4 ++ g4
        ++ (nl :: str "D.") ++ w5 ++ g5 ++ (nl :: str "Answer:") ++ w6 ++ [l])
        ++ post
    /\ ~ occurs (str "Q:") (pre ++ str "Q")
    /\ forallb isspace (w1 ++ w2 ++ w3 ++ w4 ++ w5 ++ w6) = true
    /\ List.In l (str "ABCD")
    /\ r = {| mcq_subject := subject;
              mcq_level := level;
              mcq_question := strip g1;
              mcq_options := {| opt_A := strip g2; opt_B := strip g3;
                                opt_C := strip g4; opt_D := strip g5 |};
              mcq_correct := [l] |}.
Proof.
  unfold parse_mcq. destruct (Re.search mcq_pattern t) as [gs|] eqn:E; [|discriminate].
  apply search_mcq_pattern in E.
  destruct E as (pre & w1 & g1 & w2 & g2 & w3 & g3 & w4 & g4 & w5 & g5 & w6 & l
                 & post & -> & Hfirst & Hw & Hl & ->).
  intros [= <-].
  exists pre, w1, g1, w2, g2, w3, g3, w4, g4, w5, g5, w6, l, post.
  rewrite (strip_letter _ (answer_letter_not_space _ Hl)). auto 6.
Qed.

Lemma parse_mcq_fields_from_text_witness :
  exists pre w1 g1 w2 g2 w3 g3 w4 g4 w5 g5 w6 l post,
    chatty_response
    = pre ++ (str "Q:" ++ w1 ++ g1 ++ (nl :: str "A.") ++ w2 ++ g2
        ++ (nl :: str "B.") ++ w3 ++ g3 ++ (nl :: str "C.") ++ w4 ++ g4
        ++ (nl :: str "D.") ++ w5 ++ g5 ++ (nl :: str "Answer:") ++ w6 ++ [l])
        ++ post
    /\ ~ occurs (str "Q:") (pre ++ str "Q")
    /\ forallb isspace (w1 ++ w2 ++ w3 ++ w4 ++ w5 ++ w6) = true
    /\ List.In l (str "ABCD")
    /\ chatty_record
       = {| mcq_subject := str "Math";
            mcq_level := str "Beginner";
            mcq_question := strip g1;
            mcq_options := {| opt_A := strip g2; opt_B := strip g3;
                              opt_C := strip g4; opt_D := strip g5 |};
            mcq_correct := [l] |}.
Proof.
  apply (parse_mcq_fields_from_text (str "Math") (str "Beginner") chatty_response).
  vm_compute. reflexivity.
Defined.

(** X2. Every record the parser returns is well formed: it carries the
    run's subject and level, its question and its four options have no
    whitespace at either end, and its answer is exactly one of the
    strings A, B, C, D. *)
Theorem parse_mcq_well_formed (subject level t : text) (r : mcq) :
  parse_mcq subject level t = Some r ->
  mcq_subject r = subject /\ mcq_level r = level
  /\ trimmed (mcq_question r)
  /\ trimmed (opt_A (mcq_options r)) /\ trimmed (opt_B (mcq_options r))
  /\ trimmed (opt_C (mcq_options r)) /\ trimmed (opt_D (mcq_options r))
  /\ List.In (mcq_correct r) [str "A"; str "B"; str "C"; str "D"].
Proof.
  unfold parse_mcq. destruct (Re.search mcq_pattern t) as [gs|] eqn:E; [|discriminate].
  apply search_mcq_pattern in E.
  destruct E as (pre & w1 & g1 & w2 & g2 & w3 & g3 & w4 & g4 & w5 & g5 & w6 & l
                 & post & _ & _ & _ & Hl & ->).
  intros [= <-]. cbn [mcq_subject mcq_level mcq_question mcq_options mcq_correct
                      opt_A opt_B opt_C opt_D].
  repeat (split; [first [reflexivity | apply trimmed_strip]|]).
  rewrite (strip_letter _ (answer_letter_not_space _ Hl)).
  cbn in Hl |- *. destruct Hl as [<- | [<- | [<- | [<- | []]]]]; auto.
Qed.

Lemma parse_mcq_well_formed_witness :
  mcq_subject chatty_record = str "Math" /\ mcq_level chatty_record = str "Beginner"
  /\ trimmed (mcq_question chatty_record)
  /\ trimmed (opt_A (mcq_options chatty_record))
  /\ trimmed (opt_B (mcq_options chatty_record))
  /\ trimmed (opt_C (mcq_options chatty_record))
  /\ trimmed (opt_D (mcq_options chatty_record))
  /\ List.In (mcq_correct chatty_record) [str "A"; str "B"; str "C"; str "D"].
Proof.
  apply (parse_mcq_well_formed (str "Math") (str "Beginner") chatty_response).
  vm_compute. reflexivity.
Defined.

Lemma app_prefix_or_nl (lab post g rest : text) :
  lab ++ post = g ++ nl :: rest -> (exists z, g = lab ++ z) \/ List.In nl lab.
Proof.
  revert g. induction lab as [|a lab IH]; intros g H.
  - left. now exists g.
  - destruct g as [|b g]; cbn [app] in H.
    + injection H as -> _. right. now left.
    + injection H as -> H. destruct (IH g H) as [[z ->] | Hin].
      * left. now exists z.
      * right. now right.
Qed.

(** One labelled field that may span lines: [\s*(.*?)] followed by the next
    label captures the field without its leading whitespace, provided the
    label does not occur inside the field. *)
Lemma field_segment_lines (lab : text) (p : Re.pattern) (f u : text) (r : Re.groups) :
  one_line lab ->
  field_multi f lab ->
  Re.match_here p u = Some r ->
  Re.match_here (Re.Spaces :: Re.GroupAnyLazy :: Re.Lit (nl :: lab) :: p)
    (f ++ nl :: lab ++ u) = Some (lstrip f :: r).
Proof.
  intros Hlab [Hblank Hfree] Hr.
  change (Re.greedy_spaces
            (Re.lazy_any (Re.match_here (Re.Lit (nl :: lab) :: p)) [])
            (f ++ nl :: lab ++ u) = Some (lstrip f :: r)).
  assert (Hhit : Re.match_here (Re.Lit (nl :: lab) :: p) (nl :: lab ++ u) = Some r).
  { rewrite <- Hr. apply (match_lit (nl :: lab)). }
  destruct (lstrip_split f) as (w & Hf & Hw).
  destruct (lstrip f) as [|c g] eqn:Hg; [contradiction|].
  rewrite Hf, <- app_assoc. apply greedy_spaces_run; [exact Hw|].
  rewrite greedy_spaces_stop.
  - rewrite (lazy_any_skip _ (c :: g)).
    + rewrite (lazy_any_hit _ _ _ _ Hhit), app_nil_r, rev_involutive. reflexivity.
    + intros g1 x g2 Hsplit. apply match_lit_absent. intros post Heq.
      cbn [app] in Heq. injection Heq as -> Heq. symmetry in Heq.
      apply app_prefix_or_nl in Heq. destruct Heq as [[z ->] | Hin]; [|now apply Hlab].
      apply Hfree. rewrite Hf, Hsplit. apply occurs_app_r, occurs_app_r.
      exists [], z. reflexivity.
  - cbn [app lstrip]. now rewrite (lstrip_head _ _ _ Hg).
Qed.

Lemma search_past_commentary (pre s : text) :
  ~ occurs (str "Q:") pre ->
  Re.search mcq_pattern (pre ++ str "Q:" ++ s) = Re.search mcq_pattern (str "Q:" ++ s).
Proof.
  intros Hpre. apply search_skip.
  intros pre1 x pre2 Hsplit. apply match_lit_absent. intros post Heq.
  apply Hpre. rewrite Hsplit. cbn in Heq.
  injection Heq as -> Heq. destruct pre2 as [|y pre2]; cbn in Heq.
  - discriminate.
  - injection Heq as -> _. exists pre1, pre2. reflexivity.
Qed.

(** X3. Fields may span several lines: for a response whose fields are not
    blank and do not contain the label that ends them, the parser returns
    the record of the stripped fields, line feeds inside a field
    included. *)
Theorem parse_mcq_multiline (subject level pre q a b c d w : text) (l : N) (rest : text) :
  ~ occurs (str "Q:") pre ->
  field_multi q (str "A.") ->
  field_multi a (str "B.") ->
  field_multi b (str "C.") ->
  field_multi c (str "D.") ->
  field_multi d (str "Answer:") ->
  forallb isspace w = true ->
  List.In l (str "ABCD") ->
  parse_mcq subject level (pre ++ mcq_text q a b c d (w ++ l :: rest))
  = Some {| mcq_subject := subject;
            mcq_level := level;
            mcq_question := strip q;
            mcq_options := {| opt_A := strip a; opt_B := strip b;
                              opt_C := strip c; opt_D := strip d |};
            mcq_correct := [l] |}.
Proof.
  intros Hpre Hq Ha Hb Hc Hd Hw Hl.
  assert (Hm : Re.match_here mcq_pattern (mcq_text q a b c d (w ++ l :: rest))
               = Some [lstrip q; lstrip a; lstrip b; lstrip c; lstrip d; [l]]).
  { unfold mcq_pattern, mcq_text. rewrite match_lit.
    apply field_segment_lines; [one_line_label | exact Hq |].
    apply field_segment_lines; [one_line_label | exact Ha |].
    apply field_segment_lines; [one_line_label | exact Hb |].
    apply field_segment_lines; [one_line_label | exact Hc |].
    apply field_segment_lines; [one_line_label | exact Hd |].
    now apply answer_segment. }
  unfold parse_mcq, mcq_text in *. rewrite (search_past_commentary _ _ Hpre).
  rewrite (search_hit _ _ _ Hm).
  now rewrite !strip_lstrip, (strip_letter _ (answer_letter_not_space _ Hl)).
Qed.

Lemma parse_mcq_multiline_witness :
  parse_mcq (str "Math") (str "Beginner")
    ([] ++ mcq_text (str " Compute" ++ [nl] ++ str "2+2.") (str " 3")
            (str " 4" ++ [nl] ++ str "(four)") (str " 5") (str " 6")
            (str " " ++ 66 :: [nl]))
  = Some {| mcq_subject := str "Math";
            mcq_level := str "Beginner";
            mcq_question := strip (str " Compute" ++ [nl] ++ str "2+2.");
            mcq_options := {| opt_A := strip (str " 3");
                              opt_B := strip (str " 4" ++ [nl] ++ str "(four)");
                              opt_C := strip (str " 5"); opt_D := strip (str " 6") |};
            mcq_correct := [66] |}.
Proof.
  apply (parse_mcq_multiline (str "Math") (str "Beginner") []
           (str " Compute" ++ [nl] ++ str "2+2.") (str " 3")
           (str " 4" ++ [nl] ++ str "(four)") (str " 5") (str " 6") (str " ") 66 [nl]).
  - apply not_occurs. reflexivity.
  - split; [discriminate | apply not_occurs; reflexivity].
  - split; [discriminate | apply not_occurs; reflexivity].
  - split; [discriminate | apply not_occurs; reflexivity].
  - split; [discriminate | apply not_occurs; reflexivity].
  - split; [discriminate | apply not_occurs; reflexivity].
  - reflexivity.
  - cbn. tauto.
Defined.

(** * The prompt *)

Lemma one_line_digits (d : Decimal.uint) :
  one_line (str (NilEmpty.string_of_uint d)).
Proof.
  unfold one_line.
  induction d; cbn [NilEmpty.string_of_uint str In]; [tauto | |..];
    intros [H | H]; solve [discriminate H | now apply IHd].
Qed.

Lemma one_line_str_of_nat (n : nat) : one_line (str_of_nat n).
Proof.
  unfold str_of_nat, NilZero.string_of_uint.
  destruct (Nat.to_uint n) eqn:E; try (rewrite <- E; apply one_line_digits).
  one_line_label.
Qed.

Lemma occurs_nil (c : N) (t : text) : ~ occurs (c :: t) [].
Proof. intros (pre & post & H). now destruct pre. Qed.

(** X4. The prompt is not itself a question: its format example ends with
    [Answer: <A/B/C/D>], where no answer letter follows the label, so a
    model that echoes the prompt back is rejected by the parser (for a
    subject and a level without line feeds). *)
Theorem prompt_is_rejected (subject level : text) (count : nat) :
  one_line subject -> one_line level ->
  parse_mcq subject level (build_prompt subject level count) = None.
Proof.
  intros Hs Hl.
  destruct (parse_mcq subject level (build_prompt subject level count)) as [r|] eqn:E;
    [|reflexivity].
  exfalso. apply (parse_mcq_labels subject level (build_prompt subject level count));
    [rewrite E; eauto|].
  do 5 right. intros (w & l & Hw & Hletter & H).
  pose proof (one_line_str_of_nat (count + 1)) as Hn.
  unfold build_prompt in H. cbn [app] in H.
  chase H.
  apply occurs_cons_inv in H. destruct H as [H | H].
  - (* at the [Answer:] line of the format example *)
    destruct (Re.eat _ _) as [post|] eqn:Heat in H; [clear H | now apply H].
    apply eat_Some in Heat. cbn in Heat. injection Heat as Heat.
    destruct w as [|c w]; cbn in Heat.
    + injection Heat as <- _. cbn in Hletter. intuition discriminate.
    + injection Heat as <- Heat. destruct w as [|c w]; cbn in Heat.
      * injection Heat as <- _. cbn in Hletter. intuition discriminate.
      * injection Heat as <- _. cbn in Hw. discriminate Hw.
  - chase H. now apply occurs_nil in H.
Qed.

Lemma prompt_is_rejected_witness :
  parse_mcq (str "Python") (str "Beginner")
    (build_prompt (str "Python") (str "Beginner") 0) = None.
Proof.
  apply (prompt_is_rejected (str "Python") (str "Beginner") 0); one_line_label.
Defined.

(** * Further properties of the loop *)

Section LoopFacts.

Variables subject level : text.
Variable client : model_client.

Local Abbreviation body := (loop_body subject level client).
Local Abbreviation loop := (while_loop subject level client).
Local Abbreviation reach := (after subject level client).

(** Where an appended record comes from: the reply to the call of this
    iteration, as parsed. *)
Lemma loop_body_source (st st' : state) :
  body st = Continue st' ->
  dataset st' = dataset st
  \/ exists t parsed,
       client (tries st) (build_prompt subject level (length (dataset st))) = Returned t
       /\ parse_mcq subject level t = Some parsed
       /\ dataset st' = dataset st ++ [parsed].
Proof.
  unfold loop_body. loop_vars.
  destruct (client _ _) as [t|e] eqn:Hc.
  - destruct (parse_mcq subject level t) as [parsed|] eqn:Hp.
    + destruct (decide _); intros [= <-]; loop_vars; [right | left]; eauto.
    + intros [= <-]. now left.
  - destruct (is_Exception e); [|discriminate]. intros [= <-]. now left.
Qed.

(** X5. The dataset is append-only: whatever the client does, the records
    present at some point of the loop are still there, unchanged and in
    the same order, after [k] more iterations, which add at most [k]
    records behind them. *)
Theorem dataset_append_only (k : nat) (st st' : state) :
  reach k st = Some st' ->
  exists added, dataset st' = dataset st ++ added /\ (length added <= k)%nat.
Proof.
  revert st. induction k as [|k IH]; intros st; cbn [after].
  - intros [= <-]. exists []. now rewrite app_nil_r.
  - destruct (loop_cond st); [|discriminate].
    destruct (body st) as [st1|] eqn:Hb; [|discriminate].
    intros H. destruct (IH _ H) as (added & -> & Hlen).
    apply loop_body_continue in Hb.
    destruct Hb as (_ & _ & [[-> _] | (parsed & _ & -> & _)]).
    + exists added. split; [reflexivity | lia].
    + exists (parsed :: added). rewrite <- app_assoc. split; [reflexivity|].
      cbn. lia.
Qed.

(** A loop that finishes does so in a state it reached by iterating, in
    which its condition is false. *)
Lemma while_loop_finished (fuel : nat) (st0 st : state) :
  loop fuel st0 = Some (Finished st) ->
  exists k, reach k st0 = Some st /\ loop_cond st = false.
Proof.
  revert st0. induction fuel as [|fuel IH]; intros st0; simpl;
    destruct (loop_cond st0) eqn:Hc; try discriminate.
  - intros [= <-]. now exists 0%nat.
  - destruct (body st0) as [st1|] eqn:Hb; [|discriminate].
    intros H. destruct (IH _ H) as (k & Hk & Hcond).
    exists (S k). cbn [after]. now rewrite Hc, Hb.
  - intros [= <-]. now exists 0%nat.
Qed.

(** X6. When the loop finishes, it is for one of its two reasons: the
    dataset holds exactly 10 records, or all 30 attempts were used with
    fewer than 10 records; and each record cost at least one attempt. *)
Theorem loop_exit_condition (api_key : text) (fuel : nat) (st : state) :
  loop fuel (initial_state api_key subject level) = Some (Finished st) ->
  (length (dataset st) <= tries st)%nat
  /\ ((length (dataset st) = 10%nat /\ (tries st <= 30)%nat)
      \/ ((length (dataset st) < 10)%nat /\ tries st = 30%nat)).
Proof.
  intros H. apply while_loop_finished in H. destruct H as (k & Hk & Hcond).
  destruct (after_inv _ _ _ _ _ _ (initial_state_inv subject level api_key) Hk)
    as [(Hlen & Htries & _) Ht].
  destruct (dataset_append_only _ _ _ Hk) as (added & Hd & Hadd).
  cbn in Ht, Hd. subst k. rewrite Hd in *.
  split; [exact Hadd|].
  unfold loop_cond in Hcond. rewrite Hd in Hcond.
  apply andb_false_iff in Hcond. destruct Hcond as [Hc | Hc];
    apply Nat.ltb_ge in Hc; lia.
Qed.

(** X7. The dataset holds nothing but parsed replies: every record in it
    is what [parse_mcq] returned for the text the client returned at one of
    the calls made so far. *)
Theorem dataset_provenance (api_key : text) (k : nat) (st : state) (r : mcq) :
  reach k (initial_state api_key subject level) = Some st ->
  List.In r (dataset st) ->
  exists n count t,
    (n < k)%nat
    /\ client n (build_prompt subject level count) = Returned t
    /\ parse_mcq subject level t = Some r.
Proof.
  intros Hk.
  assert (Hgen : forall k st0 st, reach k st0 = Some st ->
            List.In r (dataset st) ->
            List.In r (dataset st0)
            \/ exists n count t,
                 (tries st0 <= n < tries st0 + k)%nat
                 /\ client n (build_prompt subject level count) = Returned t
                 /\ parse_mcq subject level t = Some r).
  { clear. induction k as [|k IH]; intros st0 st; cbn [after].
    - intros [= <-]. now left.
    - destruct (loop_cond st0); [|discriminate].
      destruct (body st0) as [st1|] eqn:Hb; [|discriminate].
      intros H Hin. pose proof (loop_body_continue _ _ _ _ _ Hb) as (Ht & _).
      destruct (IH _ _ H Hin) as [Hin1 | (n & count & t & Hn & Hc & Hp)].
      + apply loop_body_source in Hb.
        destruct Hb as [Hd | (t & parsed & Hc & Hp & Hd)]; rewrite Hd in Hin1;
          [now left|].
        apply in_app_or in Hin1. destruct Hin1 as [Hin1 | [<- | []]]; [now left|].
        right. exists (tries st0), (length (dataset st0)), t.
        split; [lia | auto].
      + right. exists n, count, t. split; [lia | auto]. }
  intros Hin. destruct (Hgen _ _ _ Hk Hin) as [[] | (n & count & t & Hn & H)].
  exists n, count, t. cbn in Hn. split; [lia | exact H].
Qed.

End LoopFacts.

Lemma dataset_append_only_witness :
  exists st',
    after (str "Math") (str "Beginner") alternating_client 3
      (initial_state (str "key") (str "Math") (str "Beginner")) = Some st'
    /\ exists added,
         dataset st'
         = dataset (initial_state (str "key") (str "Math") (str "Beginner")) ++ added
         /\ (length added <= 3)%nat.
Proof.
  eexists. split; [vm_compute; reflexivity|].
  apply (dataset_append_only (str "Math") (str "Beginner") alternating_client 3).
  vm_compute. reflexivity.
Defined.

Lemma loop_exit_condition_witness :
  exists st,
    while_loop (str "Math") (str "Beginner") alternating_client 30
      (initial_state (str "key") (str "Math") (str "Beginner")) = Some (Finished st)
    /\ (length (dataset st) <= tries st)%nat
    /\ ((length (dataset st) = 10%nat /\ (tries st <= 30)%nat)
        \/ ((length (dataset st) < 10)%nat /\ tries st = 30%nat)).
Proof.
  eexists. split; [vm_compute; reflexivity|].
  apply (loop_exit_condition (str "Math") (str "Beginner") alternating_client
           (str "key") 30).
  vm_compute. reflexivity.
Defined.

Lemma dataset_provenance_witness :
  exists n count t,
    (n < 1)%nat
    /\ alternating_client n (build_prompt (str "Math") (str "Beginner") count)
       = Returned t
    /\ parse_mcq (str "Math") (str "Beginner") t
       = Some (fresh_record (str "Math") (str "Beginner") 0).
Proof.
  eapply (dataset_provenance (str "Math") (str "Beginner") alternating_client
            (str "key") 1).
  - vm_compute. reflexivity.
  - vm_compute. left. reflexivity.
Defined.

(** * Further properties of the script *)

Lemma file_writes_app (tr es : list event) :
  file_writes (tr ++ es) = (file_writes tr + file_writes es)%nat.
Proof.
  induction tr as [|e tr IH]; [reflexivity|].
  destruct e; cbn [app file_writes]; now rewrite IH.
Qed.

Lemma file_content_app (path : text) (tr es : list event) :
  file_content path (tr ++ es)
  = match file_content path es with
    | Some c => Some c
    | None => file_content path tr
    end.
Proof.
  induction tr as [|e tr IH]; cbn [app file_content].
  - now destruct (file_content path es).
  - rewrite IH. now destruct (file_content path es).
Qed.

Section Outcome.

Variables subject level : text.
Variable client : model_client.

Local Abbreviation body := (loop_body subject level client).
Local Abbreviation loop := (while_loop subject level client).

(** An iteration writes no file, however it ends; the only exception it
    lets through is one that is not an [Exception]. *)
Lemma loop_body_quiet (path : text) (st : state) :
  match body st with
  | Continue st' =>
      file_writes (trace st') = file_writes (trace st)
      /\ file_content path (trace st') = file_content path (trace st)
  | Raise e st' =>
      is_Exception e = false
      /\ file_writes (trace st') = file_writes (trace st)
      /\ file_content path (trace st') = file_content path (trace st)
  end.
Proof.
  unfold loop_body. loop_vars.
  destruct (client _ _) as [t|e].
  - destruct (parse_mcq subject level t) as [parsed|];
      [destruct (decide _)|]; loop_vars;
      rewrite !file_writes_app, !file_content_app; cbn [file_writes file_content];
      split; [lia | reflexivity | lia | reflexivity | lia | reflexivity].
  - destruct (is_Exception e) eqn:He; loop_vars;
      rewrite !file_writes_app, !file_content_app; cbn [file_writes file_content].
    + split; [lia | reflexivity].
    + split; [exact He|]. split; [lia | reflexivity].
Qed.

Lemma while_loop_quiet (path : text) (fuel : nat) (st : state) (e : ended) :
  loop fuel st = Some e ->
  file_writes (trace (final_state e)) = file_writes (trace st)
  /\ file_content path (trace (final_state e)) = file_content path (trace st)
  /\ match e with
     | Finished _ => True
     | Uncaught ex _ => is_Exception ex = false
     end.
Proof.
  revert st. induction fuel as [|fuel IH]; intros st; simpl;
    destruct (loop_cond st); try discriminate; try (intros [= <-]; now cbn).
  pose proof (loop_body_quiet path st) as Hq.
  destruct (body st) as [st'|ex st'].
  - intros H. destruct (IH _ H) as (Hw & Hc & He). destruct Hq as [Hw' Hc'].
    split; [congruence|]. split; [congruence | exact He].
  - intros [= <-]. cbn. tauto.
Qed.

End Outcome.

(** X8. With a credential, the script always ends, after at most 30 model
    calls, in one of two ways. Either it ends without error, having written
    the output file exactly once, with the JSON of at most 10 records whose
    questions are all different; or a model call raised something that is
    not an [Exception], that exception ends the script, and no file is
    written at all: the records accepted so far are lost. *)
Theorem script_outcome (api_key : text) (argv : list (list N))
    (client : model_client) (fuel : nat) :
  api_key <> [] ->
  (30 <= fuel)%nat ->
  exists r,
    script fuel (Some api_key) argv client = Some r
    /\ (model_calls (run_trace r) <= 30)%nat
    /\ ((run_error r = None
         /\ file_writes (run_trace r) = 1%nat
         /\ exists ds, (length ds <= 10)%nat
                       /\ NoDup (map mcq_question ds)
                       /\ file_content output_file (run_trace r)
                          = Some (Json.dump ds))
        \/ (exists e, run_error r = Some e
                      /\ is_Exception e = false
                      /\ file_writes (run_trace r) = 0%nat
                      /\ file_content output_file (run_trace r) = None)).
Proof.
  intros Hkey Hfuel. unfold script.
  destruct api_key as [|c key] eqn:Ek; [contradiction|]. rewrite <- Ek. clear Hkey.
  set (subject := argv_or argv 1 (str "General Knowledge")).
  set (level := argv_or argv 2 (str "Beginner")).
  destruct (while_loop_terminates subject level client fuel
              (initial_state api_key subject level)
              (initial_state_inv subject level api_key))
    as (e & He & Hlen & _ & Hcalls & Hnd); [cbn; lia|].
  rewrite He.
  destruct (while_loop_quiet subject level client output_file _ _ _ He)
    as (Hw & Hc & Hexc).
  cbn [initial_state trace file_writes file_content] in Hw, Hc.
  destruct e as [st|ex st]; cbn [final_state] in *.
  - eexists. split; [reflexivity|]. cbn [run_trace run_error].
    rewrite model_calls_app, file_writes_app, file_content_written, Hw.
    cbn [model_calls file_writes]. split; [lia|]. left.
    split; [reflexivity|]. split; [reflexivity|]. exists (dataset st). auto.
  - eexists. split; [reflexivity|]. cbn [run_trace run_error].
    split; [exact Hcalls|]. right. exists ex. auto.
Qed.

Lemma script_outcome_witness :
  exists r,
    script 30 (Some (str "key")) [str "question_generator.py"] alternating_client
    = Some r
    /\ (model_calls (run_trace r) <= 30)%nat
    /\ ((run_error r = None
         /\ file_writes (run_trace r) = 1%nat
         /\ exists ds, (length ds <= 10)%nat
                       /\ NoDup (map mcq_question ds)
                       /\ file_content output_file (run_trace r)
                          = Some (Json.dump ds))
        \/ (exists e, run_error r = Some e
                      /\ is_Exception e = false
                      /\ file_writes (run_trace r) = 0%nat
                      /\ file_content output_file (run_trace r) = None)).
Proof.
  apply (script_outcome (str "key") [str "question_generator.py"]
           alternating_client 30); [discriminate | lia].
Defined.

Section Rejected.

Variable api_key : text.
Variable argv : list (list N).
Variable client : model_client.

Local Abbreviation subject := (argv_or argv 1 (str "General Knowledge")).
Local Abbreviation level := (argv_or argv 2 (str "Beginner")).
Local Abbreviation st0 := (initial_state api_key subject level).
Local Abbreviation reach := (after subject level client).

(** X9. A reply that does not parse costs an attempt just as an exception
    does: if every call either raises an [Exception] or returns text the
    parser rejects, the script uses all 30 attempts, ends without error,
    and writes the empty JSON array. *)
Theorem all_replies_rejected (fuel : nat) :
  api_key <> [] ->
  (forall n p,
     (exists e, client n p = Raised e /\ is_Exception e = true)
     \/ (exists t, client n p = Returned t /\ parse_mcq subject level t = None)) ->
  (30 <= fuel)%nat ->
  exists r, script fuel (Some api_key) argv client = Some r
            /\ run_error r = None
            /\ model_calls (run_trace r) = 30%nat
            /\ file_content output_file (run_trace r) = Some (str "[]").
Proof.
  intros Hkey Hrej Hfuel.
  assert (Hreach : forall k, (k <= 30)%nat ->
            exists st, reach k st0 = Some st /\ dataset st = [] /\ tries st = k).
  { induction k as [|k IH]; intros Hk.
    - eexists. split; [reflexivity|]. auto.
    - destruct IH as (st & Hst & Hd & Ht); [lia|].
      assert (Hstep : exists st', loop_body subject level client st = Continue st'
                                  /\ dataset st' = dataset st
                                  /\ tries st' = S (tries st)).
      { destruct (Hrej (tries st) (build_prompt subject level (length (dataset st))))
          as [(e & He & Hexc) | (t & Ht' & Hp)].
        - exact (body_exception _ _ _ _ _ He Hexc).
        - exact (body_parse_failure _ _ _ _ _ Ht' Hp). }
      destruct Hstep as (st' & Hb & Hd' & Ht').
      exists st'. split; [|split; congruence].
      apply (after_snoc _ _ _ _ _ _ _ Hst); [|exact Hb].
      unfold loop_cond. rewrite Hd, Ht. cbn [length].
      apply andb_true_intro. split; apply Nat.ltb_lt; lia. }
  destruct (Hreach 30%nat (Nat.le_refl _)) as (st & Hst & Hd & Ht).
  destruct (script_finished api_key argv client fuel 30 st Hkey Hst)
    as (r & Hr & He & Hm & Hf).
  - unfold loop_cond. now rewrite Hd, Ht.
  - exact Hfuel.
  - exists r. rewrite Hd in Hf. auto.
Qed.

End Rejected.

Lemma all_replies_rejected_witness :
  exists r,
    script 30 (Some (str "key")) [str "question_generator.py"] garbage_client = Some r
    /\ run_error r = None
    /\ model_calls (run_trace r) = 30%nat
    /\ file_content output_file (run_trace r) = Some (str "[]").
Proof.
  apply (all_replies_rejected (str "key") [str "question_generator.py"]
           garbage_client 30).
  - discriminate.
  - intros n p. right. eexists. split; reflexivity.
  - lia.
Defined.

(** * Further properties of the output file *)

Lemma hexdigit_plain (n : N) : n < 16 -> plain_ascii (Json.hexdigit n) = true.
Proof.
  intros Hn. unfold Json.hexdigit, plain_ascii.
  destruct (n <? 10) eqn:E.
  - apply N.ltb_lt in E. apply orb_true_intro. right.
    apply andb_true_intro. split; apply N.leb_le; lia.
  - apply N.ltb_ge in E. apply orb_true_intro. right.
    apply andb_true_intro. split; apply N.leb_le; lia.
Qed.

Lemma u_escape_plain (n : N) : forallb plain_ascii (Json.u_escape n) = true.
Proof.
  unfold Json.u_escape. cbn [str app forallb].
  rewrite !hexdigit_plain by (apply N.mod_lt; discriminate). reflexivity.
Qed.

Lemma escape_char_plain (c : N) : forallb plain_ascii (Json.escape_char c) = true.
Proof.
  unfold Json.escape_char.
  repeat (match goal with |- context [if ?b then _ else _] => destruct b eqn:? end;
          [first [reflexivity | idtac] |]).
  - cbn [forallb]. unfold plain_ascii.
    match goal with H : (_ && _) = true |- _ => rewrite H end.
    now rewrite orb_true_r.
  - apply u_escape_plain.
  - rewrite forallb_app, !u_escape_plain. reflexivity.
Qed.

Lemma encode_str_plain (s : text) : forallb plain_ascii (Json.encode_str s) = true.
Proof.
  unfold Json.encode_str. rewrite !forallb_app. cbn [forallb].
  replace (forallb plain_ascii (concat (map Json.escape_char s))) with true;
    [reflexivity|].
  symmetry. induction s as [|c s IH]; [reflexivity|].
  cbn [map concat]. now rewrite forallb_app, escape_char_plain, IH.
Qed.

Lemma newline_indent_plain (lvl : nat) :
  forallb plain_ascii (Json.newline_indent lvl) = true.
Proof.
  unfold Json.newline_indent. cbn [forallb].
  induction (4 * lvl)%nat as [|n IH]; [reflexivity | exact IH].
Qed.

Lemma join_plain (sep : text) (parts : list (list N)) :
  forallb plain_ascii sep = true ->
  forallb (forallb plain_ascii) parts = true ->
  forallb plain_ascii (Json.join sep parts) = true.
Proof.
  intros Hsep. induction parts as [|x parts IH]; [reflexivity|].
  cbn [forallb]. intros H. apply andb_prop in H. destruct H as [Hx Hparts].
  destruct parts as [|y parts]; [exact Hx|].
  change (Json.join sep (x :: y :: parts)) with (x ++ sep ++ Json.join sep (y :: parts)).
  now rewrite !forallb_app, Hx, Hsep, IH.
Qed.

Lemma encode_mcq_plain (lvl : nat) (r : mcq) :
  forallb plain_ascii (Json.encode lvl (Json.of_mcq r)) = true.
Proof.
  unfold Json.of_mcq.
  cbn [Json.encode map Json.join fst snd].
  rewrite !forallb_app, !encode_str_plain, !newline_indent_plain. reflexivity.
Qed.

Lemma encode_array (lvl : nat) (x : Json.value) (xs : list Json.value) :
  Json.encode lvl (Json.JArr (x :: xs))
  = str "[" ++ Json.newline_indent (S lvl)
    ++ Json.join (str "," ++ Json.newline_indent (S lvl))
         (map (Json.encode (S lvl)) (x :: xs))
    ++ Json.newline_indent lvl ++ str "]".
Proof. reflexivity. Qed.

(** X10. The output file is plain ASCII whatever the questions contain:
    every character [json.dump] writes is a line feed or a printable ASCII
    character, all others being written as escapes. *)
Theorem dump_is_ascii (dataset : list mcq) :
  forallb plain_ascii (Json.dump dataset) = true.
Proof.
  unfold Json.dump. destruct dataset as [|r ds]; [reflexivity|].
  cbn [map]. rewrite encode_array.
  rewrite !forallb_app, !newline_indent_plain, join_plain; [reflexivity | |].
  - rewrite forallb_app, newline_indent_plain. reflexivity.
  - change (Json.of_mcq r :: map Json.of_mcq ds) with (map Json.of_mcq (r :: ds)).
    induction (r :: ds) as [|x xs IH]; [reflexivity|].
    cbn [map forallb]. now rewrite encode_mcq_plain, IH.
Qed.

Lemma line_feeds_app (s1 s2 : text) :
  line_feeds (s1 ++ s2) = (line_feeds s1 + line_feeds s2)%nat.
Proof. induction s1 as [|c s1 IH]; cbn [app line_feeds]; [reflexivity | lia]. Qed.

Lemma hexdigit_not_nl (n : N) : (Json.hexdigit n =? nl) = false.
Proof.
  unfold Json.hexdigit, nl. apply N.eqb_neq. destruct (n <? 10); lia.
Qed.

Lemma u_escape_no_nl (n : N) : line_feeds (Json.u_escape n) = 0%nat.
Proof.
  unfold Json.u_escape. cbn [str app line_feeds].
  rewrite !hexdigit_not_nl. reflexivity.
Qed.

Lemma escape_char_no_nl (c : N) : line_feeds (Json.escape_char c) = 0%nat.
Proof.
  unfold Json.escape_char.
  repeat (match goal with |- context [if ?b then _ else _] => destruct b eqn:? end;
          [first [reflexivity | idtac] |]).
  - cbn [line_feeds].
    match goal with H : (c =? 10) = false |- _ => unfold nl; rewrite H end.
    reflexivity.
  - apply u_escape_no_nl.
  - rewrite line_feeds_app, !u_escape_no_nl. reflexivity.
Qed.

(** A string literal of the output holds no raw line feed. *)
Lemma encode_str_no_nl (s : text) : line_feeds (Json.encode_str s) = 0%nat.
Proof.
  unfold Json.encode_str. rewrite !line_feeds_app. cbn [line_feeds].
  replace (line_feeds (concat (map Json.escape_char s))) with 0%nat; [reflexivity|].
  symmetry. induction s as [|c s IH]; [reflexivity|].
  cbn [map concat]. now rewrite line_feeds_app, escape_char_no_nl, IH.
Qed.

Lemma newline_indent_one_nl (lvl : nat) : line_feeds (Json.newline_indent lvl) = 1%nat.
Proof.
  unfold Json.newline_indent. cbn [line_feeds]. rewrite N.eqb_refl.
  induction (4 * lvl)%nat as [|n IH]; [reflexivity | exact IH].
Qed.

Lemma encode_mcq_line_feeds (lvl : nat) (r : mcq) :
  line_feeds (Json.encode lvl (Json.of_mcq r)) = 11%nat.
Proof.
  unfold Json.of_mcq.
  cbn [Json.encode map Json.join fst snd].
  rewrite !line_feeds_app, !encode_str_no_nl, !newline_indent_one_nl. reflexivity.
Qed.

Lemma join_records_line_feeds (lvl : nat) (r : mcq) (ds : list mcq) :
  line_feeds (Json.join (str "," ++ Json.newline_indent lvl)
                (map (Json.encode lvl) (map Json.of_mcq (r :: ds))))
  = (12 * length (r :: ds) - 1)%nat.
Proof.
  revert r. induction ds as [|d ds IH]; intros r.
  - cbn [map Json.join length]. now rewrite encode_mcq_line_feeds.
  - change (Json.join (str "," ++ Json.newline_indent lvl)
              (map (Json.encode lvl) (map Json.of_mcq (r :: d :: ds))))
      with (Json.encode lvl (Json.of_mcq r)
            ++ (str "," ++ Json.newline_indent lvl)
            ++ Json.join (str "," ++ Json.newline_indent lvl)
                 (map (Json.encode lvl) (map Json.of_mcq (d :: ds)))).
    rewrite !line_feeds_app, encode_mcq_line_feeds, newline_indent_one_nl, IH.
    change (line_feeds (str ",")) with 0%nat. cbn [length]. lia.
Qed.

(** X11. The shape of the output file depends only on the number of
    records: line feeds inside questions and options are written as
    escapes, so an empty dataset gives one line and [n] records, [n > 0],
    give exactly [12 * n + 1] line feeds (12 lines per record between the
    two bracket lines). *)
Theorem dump_line_feeds (dataset : list mcq) :
  line_feeds (Json.dump dataset)
  = match dataset with
    | [] => 0%nat
    | _ => (12 * length dataset + 1)%nat
    end.
Proof.
  unfold Json.dump. destruct dataset as [|r ds]; [reflexivity|].
  cbn [map]. rewrite encode_array.
  change (Json.of_mcq r :: map Json.of_mcq ds) with (map Json.of_mcq (r :: ds)).
  rewrite !line_feeds_app, !newline_indent_one_nl, join_records_line_feeds.
  change (line_feeds (str "[")) with 0%nat. change (line_feeds (str "]")) with 0%nat.
  cbn [length]. lia.
Qed.

(** * What is sent to the model *)

Lemma prompts_app (tr es : list event) : prompts (tr ++ es) = prompts tr ++ prompts es.
Proof.
  induction tr as [|e tr IH]; [reflexivity|].
  destruct e; cbn [app prompts]; now rewrite IH.
Qed.

Section Prompts.

Variables subject level : text.
Variable client : model_client.

Local Abbreviation expected := (template_prompt subject level).

Lemma loop_body_prompt (st : state) :
  loop_cond st = true ->
  Forall expected (prompts (trace st)) ->
  match loop_body subject level client st with
  | Continue st' | Raise _ st' => Forall expected (prompts (trace st'))
  end.
Proof.
  intros Hc Hst.
  assert (Hnew : expected (build_prompt subject level (length (dataset st)))).
  { exists (length (dataset st)). split; [|reflexivity].
    unfold loop_cond in Hc. apply andb_prop in Hc. destruct Hc as [Hc _].
    now apply Nat.ltb_lt in Hc. }
  unfold loop_body. loop_vars.
  destruct (client _ _) as [t|e].
  - destruct (parse_mcq subject level t) as [parsed|];
      [destruct (decide _)|]; loop_vars;
      rewrite !prompts_app; cbn [prompts]; rewrite app_nil_r;
      apply Forall_app; split; auto.
  - destruct (is_Exception e); loop_vars;
      rewrite ?prompts_app; cbn [prompts]; rewrite ?app_nil_r;
      apply Forall_app; split; auto.
Qed.

Lemma while_loop_prompts (fuel : nat) (st : state) (e : ended) :
  Forall expected (prompts (trace st)) ->
  while_loop subject level client fuel st = Some e ->
  Forall expected (prompts (trace (final_state e))).
Proof.
  revert st. induction fuel as [|fuel IH]; intros st Hst; simpl;
    destruct (loop_cond st) eqn:Hc; try discriminate; try (now intros [= <-]).
  pose proof (loop_body_prompt st Hc Hst) as Hb.
  destruct (loop_body subject level client st) as [st'|ex st'].
  - now apply IH.
  - now intros [= <-].
Qed.

End Prompts.

(** X12. The model is only ever sent the prompt template: in every run,
    each prompt is [build_prompt] of the run's subject and level and of a
    question number from 1 to 10 (the count of accepted records is below
    10); nothing else, such as earlier questions, is sent. *)
Theorem script_prompts (fuel : nat) (getenv : option (list N))
    (argv : list (list N)) (client : model_client) (r : run) :
  script fuel getenv argv client = Some r ->
  Forall (template_prompt (argv_or argv 1 (str "General Knowledge"))
                          (argv_or argv 2 (str "Beginner")))
    (prompts (run_trace r)).
Proof.
  unfold script. destruct getenv as [[|c key]|]; try (intros [= <-]; constructor).
  destruct (while_loop _ _ _ _ _) as [e|] eqn:He; [|discriminate].
  apply while_loop_prompts in He; [|constructor].
  destruct e as [st|ex st]; intros [= <-]; cbn [run_trace final_state] in *.
  - rewrite prompts_app. cbn [prompts]. now rewrite app_nil_r.
  - exact He.
Qed.

Lemma script_prompts_witness :
  exists r,
    script 30 (Some (str "key")) [str "question_generator.py"; str "Python"]
      failing_client = Some r
    /\ Forall (template_prompt
                 (argv_or [str "question_generator.py"; str "Python"] 1
                    (str "General Knowledge"))
                 (argv_or [str "question_generator.py"; str "Python"] 2
                    (str "Beginner")))
         (prompts (run_trace r)).
Proof.
  eexists. split; [vm_compute; reflexivity|].
  apply (script_prompts 30 (Some (str "key"))
           [str "question_generator.py"; str "Python"] failing_client).
  vm_compute. reflexivity.
Defined.
